(** * Tendermint: proposer-based timestamps and the pubsub query matcher

    Two parts of the repository are covered.

    - [libs/pubsub/query/compile.go]: the compiled form of an event query and
      the functions that match it against ABCI events.  Everything in module
      [Query] is a transcription of that file.
    - [internal/consensus/pbts_test.go]: the tests of the proposer-based
      timestamp (PBTS) timing functions.  The test tables are transcribed in
      module [PBTS]; the functions they exercise live in the consensus state
      machine, which is not among the sources, and are written down from the
      specification. *)

From Stdlib Require Import ZArith List String Ascii Bool Lia.
From Stdlib Require Import Floats.PrimFloat.
From Stdlib Require Import Uint63.
From Stdlib Require Floats.FloatAxioms Floats.SpecFloat.
Import ListNotations.

Local Open Scope string_scope.

(* ================================================================== *)
(** * Part I: libs/pubsub/query/compile.go *)
(* ================================================================== *)

Module Query.

(** ** Collaborating packages

    [abci/types], [libs/pubsub/query/syntax], [strings], [strconv], [regexp]
    and [time] are imported by compile.go.  Their data is declared here as
    compile.go uses it. *)

(** abci/types.EventAttribute and abci/types.Event. *)
Record EventAttribute := mkAttr { Key : string; Value : string }.
Record Event := mkEvent { Type_ : string; Attributes : list EventAttribute }.

(** syntax.Token: the lexical classes of the query language.  compile.go
    names seven operators and four argument types; [TOther] stands for the
    remaining tokens of the syntax package. *)
Inductive Token :=
| TString | TNumber | TTime | TDate
| TContains | TExists | TEq | TLt | TLeq | TGt | TGeq
| TOther (code : nat).

Definition Token_eqb (a b : Token) : bool :=
  match a, b with
  | TString, TString | TNumber, TNumber | TTime, TTime | TDate, TDate
  | TContains, TContains | TExists, TExists | TEq, TEq | TLt, TLt
  | TLeq, TLeq | TGt, TGt | TGeq, TGeq => true
  | TOther m, TOther n => Nat.eqb m n
  | _, _ => false
  end.

(** float64 is IEEE binary64, which is what the kernel's primitive floats
    are; Go's [==], [<] and [<=] on float64 are [PrimFloat.eqb], [ltb] and
    [leb]. *)
Definition float64 := PrimFloat.float.

(** time.Time, as far as compile.go looks at it: [Equal], [Before] and
    [After] compare the instants, here nanoseconds on the time line. *)
Definition Time := Z.
Definition Equal (t u : Time) : bool := (t =? u)%Z.
Definition Before (t u : Time) : bool := (t <? u)%Z.
Definition After (t u : Time) : bool := (u <? t)%Z.

(** syntax.Arg.  The struct and its accessor methods are declared in the
    syntax package; compile.go reads the [Type] field and calls [Value()],
    [Number()] and [Time()].  The record carries the tag and what each of the
    three accessors returns. *)
Record Arg := mkArg {
  ArgType : Token;
  ArgValue : string;
  ArgNumber : float64;
  ArgTime : Time
}.

(** syntax.Condition: [Arg] is a pointer and may be nil. *)
Record Condition := mkCondition {
  Tag : string;
  Op : Token;
  Arg_ : option Arg
}.

(** syntax.Query is a slice of conditions. *)
Definition Query := list Condition.

(** The errors compile.go builds with fmt.Errorf, by constructor instead of
    by message text. *)
Inductive error :=
| ErrMissingArgument (op : Token)
| ErrUnknownArgumentType (argType : Token)
| ErrInvalidCombination (op argType : Token)
| ErrCompile (q : Condition) (err : error)
| ErrParse (msg : string).

(** ** Strings *)

(** strings.Contains(s, substr). *)
Fixpoint Contains (s substr : string) : bool :=
  String.prefix substr s
  || match s with
     | EmptyString => false
     | String _ s' => Contains s' substr
     end.

(** tag[i:] of a Go string, for [0 <= i <= len(tag)]. *)
Definition sliceFrom (s : string) (i : nat) : string :=
  String.substring i (String.length s - i) s.

(** tag[:i]. *)
Definition sliceTo (s : string) (i : nat) : string :=
  String.substring 0 i s.

(** [splitTag]: at the first ".", if there is one. *)
Definition splitTag (tag : string) : string * string :=
  match String.index 0 "." tag with
  | Some i => (sliceTo tag i, sliceFrom tag (i + 1))
  | None => (tag, EmptyString)
  end.

(** ** extractNum = regexp.MustCompile(`^\d+(\.\d+)?`) *)

(** [\d]: an ASCII decimal digit. *)
Definition isDigit (c : ascii) : bool :=
  let n := nat_of_ascii c in (48 <=? n)%nat && (n <=? 57)%nat.

(** The longest run of digits at the head of [s], and what follows it. *)
Fixpoint spanDigits (s : string) : string * string :=
  match s with
  | EmptyString => (EmptyString, EmptyString)
  | String c s' =>
      if isDigit c
      then let (ds, rest) := spanDigits s' in (String c ds, rest)
      else (EmptyString, s)
  end.

(** extractNum.FindString(s): the text of the match of the anchored
    pattern, or the empty string when there is none.  [\d+] is greedy, and
    the optional group is taken whenever a "." followed by a digit comes
    next. *)
Definition extractNum_FindString (s : string) : string :=
  let (int, rest) := spanDigits s in
  match int with
  | EmptyString => EmptyString
  | _ =>
      match rest with
      | String "."%char rest' =>
          let (frac, _) := spanDigits rest' in
          match frac with
          | EmptyString => int
          | _ => int ++ String "."%char frac
          end
      | _ => int
      end
  end.

(** ** Conditions *)

(** A compiled match condition. *)
Record condition := mkCond {
  etype : string;
  attr : string;
  match_ : string -> bool
}.

(** The compiled form of a query. *)
Record Compiled := mkCompiled {
  ast : Query;
  conds : list condition
}.

(** [findAttr]: whether the event type matches the condition, and the
    values of the attributes carrying the condition's name.  A nil slice and
    an empty one are the same list. *)
Definition findAttr (c : condition) (event : Event) : list string * bool :=
  if negb (String.eqb (Type_ event) (etype c)) then ([], false)
  else if String.eqb (attr c) EmptyString then ([], true)
  else
    (fold_left
       (fun vals a =>
          if String.eqb (Key a) (attr c) then (vals ++ [Value a])%list else vals)
       (Attributes event) [],
     true).

(** The loop at the end of [matchesEvent]. *)
Fixpoint anyValue (c : condition) (vs : list string) : bool :=
  match vs with
  | [] => false
  | v :: vs' => if match_ c v then true else anyValue c vs'
  end.

(** [matchesEvent]: whether [c] matches the given event. *)
Definition matchesEvent (c : condition) (event : Event) : bool :=
  let (vs, ok) := findAttr c event in
  if negb ok then false
  else if (List.length vs =? 0)%nat then
    if String.eqb (attr c) EmptyString then match_ c EmptyString else false
  else anyValue c vs.

(** [matchesAny]: whether [c] matches at least one of the given events. *)
Fixpoint matchesAny (c : condition) (events : list Event) : bool :=
  match events with
  | [] => false
  | event :: events' =>
      if matchesEvent c event then true else matchesAny c events'
  end.

(** The loop of [matchesEvents] over [c.conds]. *)
Fixpoint matchesEvents_loop (cs : list condition) (events : list Event) : bool :=
  match cs with
  | [] => negb (List.length events =? 0)%nat
  | cond :: cs' =>
      if negb (matchesAny cond events) then false
      else matchesEvents_loop cs' events
  end.

(** [matchesEvents]: whether all the conditions match the given events. *)
Definition matchesEvents (c : Compiled) (events : list Event) : bool :=
  matchesEvents_loop (conds c) events.

(** [Matches]: the boolean and the error; the error is [None] for nil. *)
Definition Matches (c : Compiled) (events : list Event) : bool * option error :=
  (matchesEvents c events, None).

(** ** Compilation *)

(** The dynamic values compile.go stores in [argValue interface{}]. *)
Inductive interface :=
| IString (s : string)
| IFloat64 (f : float64)
| ITime (t : Time).

(** The type assertions [v.(string)], [v.(float64)] and [v.(time.Time)].
    [compileCondition] hands every matcher the dynamic type its table entry
    asserts (see [argValue_dynamic_type] below), so the panic of a failed
    assertion cannot happen; the other branches return the zero value. *)
Definition assertString (v : interface) : string :=
  match v with IString s => s | _ => EmptyString end.
Definition assertFloat64 (v : interface) : float64 :=
  match v with IFloat64 f => f | _ => PrimFloat.zero end.
Definition assertTime (v : interface) : Time :=
  match v with ITime t => t | _ => 0%Z end.

Section Compile.

(** strconv.ParseFloat(s, 64) of the Go library, [None] when it returns an
    error. *)
Variable ParseFloat : string -> option float64.

(** syntax.ParseDate and syntax.ParseTime, [None] when they return an
    error. *)
Variable ParseDate : string -> option Time.
Variable ParseTime : string -> option Time.

(** syntax.Parse. *)
Variable Parse : string -> Query + error.

(** [parseNumber]: the float of the number-shaped head of [s]. *)
Definition parseNumber (s : string) : option float64 :=
  ParseFloat (extractNum_FindString s).

(** The three shapes of matcher in [opTypeMap]: parse the attribute value,
    fail on a parse error, compare otherwise ([err == nil && ...]). *)
Definition numberMatcher (cmp : float64 -> float64 -> bool)
    (v : interface) (s : string) : bool :=
  match parseNumber s with
  | Some w => cmp w (assertFloat64 v)
  | None => false
  end.

Definition dateMatcher (cmp : Time -> Time -> bool)
    (v : interface) (s : string) : bool :=
  match ParseDate s with
  | Some ts => cmp ts (assertTime v)
  | None => false
  end.

Definition timeMatcher (cmp : Time -> Time -> bool)
    (v : interface) (s : string) : bool :=
  match ParseTime s with
  | Some ts => cmp ts (assertTime v)
  | None => false
  end.

(** [opTypeMap]: operator => argument type => match constructor; [None]
    where the Go map has no entry. *)
Definition opTypeMap (op argType : Token)
    : option (interface -> string -> bool) :=
  match op, argType with
  | TContains, TString => Some (fun v s => Contains s (assertString v))
  | TEq, TString => Some (fun v s => String.eqb s (assertString v))
  | TEq, TNumber => Some (numberMatcher (fun w x => PrimFloat.eqb w x))
  | TEq, TDate => Some (dateMatcher (fun ts x => Equal ts x))
  | TEq, TTime => Some (timeMatcher (fun ts x => Equal ts x))
  | TLt, TNumber => Some (numberMatcher (fun w x => PrimFloat.ltb w x))
  | TLt, TDate => Some (dateMatcher (fun ts x => Before ts x))
  | TLt, TTime => Some (timeMatcher (fun ts x => Before ts x))
  | TLeq, TNumber => Some (numberMatcher (fun w x => PrimFloat.leb w x))
  | TLeq, TDate => Some (dateMatcher (fun ts x => negb (After ts x)))
  | TLeq, TTime => Some (timeMatcher (fun ts x => negb (After ts x)))
  | TGt, TNumber => Some (numberMatcher (fun w x => PrimFloat.ltb x w))
  | TGt, TDate => Some (dateMatcher (fun ts x => After ts x))
  | TGt, TTime => Some (timeMatcher (fun ts x => After ts x))
  | TGeq, TNumber => Some (numberMatcher (fun w x => PrimFloat.leb x w))
  | TGeq, TDate => Some (dateMatcher (fun ts x => negb (Before ts x)))
  | TGeq, TTime => Some (timeMatcher (fun ts x => negb (Before ts x)))
  | _, _ => None
  end.

(** The switch on [argType] in [compileCondition]. *)
Definition argValueOf (arg : Arg) : interface + error :=
  match ArgType arg with
  | TString => inl (IString (ArgValue arg))
  | TNumber => inl (IFloat64 (ArgNumber arg))
  | TTime | TDate => inl (ITime (ArgTime arg))
  | argType => inr (ErrUnknownArgumentType argType)
  end.

(** [compileCondition]. *)
Definition compileCondition (cond : Condition) : condition + error :=
  let (etype, attr) := splitTag (Tag cond) in
  if Token_eqb (Op cond) TExists then
    inl (mkCond etype attr (fun _ => true))
  else
    match Arg_ cond with
    | None => inr (ErrMissingArgument (Op cond))
    | Some arg =>
        let argType := ArgType arg in
        match argValueOf arg with
        | inr err => inr err
        | inl argValue =>
            match opTypeMap (Op cond) argType with
            | None => inr (ErrInvalidCombination (Op cond) argType)
            | Some mcons => inl (mkCond etype attr (mcons argValue))
            end
        end
    end.

(** The loop of [Compile]: the first condition that fails to compile ends
    it. *)
Fixpoint Compile_loop (ast : Query) : list condition + error :=
  match ast with
  | [] => inl []
  | q :: ast' =>
      match compileCondition q with
      | inr err => inr (ErrCompile q err)
      | inl cond =>
          match Compile_loop ast' with
          | inr err => inr err
          | inl conds => inl (cond :: conds)
          end
      end
  end.

(** [Compile]: the compiled form of a query AST. *)
Definition Compile (ast : Query) : Compiled + error :=
  match Compile_loop ast with
  | inr err => inr err
  | inl conds => inl (mkCompiled ast conds)
  end.

(** [NewCompiled]. *)
Definition NewCompiled (s : string) : Compiled + error :=
  match Parse s with
  | inr err => inr err
  | inl ast => Compile ast
  end.

End Compile.

End Query.

(* ================================================================== *)
(** * Part II: internal/consensus/pbts_test.go *)
(* ================================================================== *)

Module PBTS.

Local Open Scope Z_scope.

(** ** Time

    time.Time is an instant and time.Duration a signed count of
    nanoseconds; both are integers here, instants counted from the Unix
    epoch. *)
Definition Time := Z.
Definition Duration := Z.

Definition Nanosecond : Duration := 1.
Definition Millisecond : Duration := 1000000 * Nanosecond.
Definition Second : Duration := 1000 * Millisecond.

Definition Add (t : Time) (d : Duration) : Time := t + d.
Definition Sub (t u : Time) : Duration := t - u.
Definition After (t u : Time) : bool := u <? t.
Definition Before (t u : Time) : bool := t <? u.

(** libs/time.Source, the clock.  The tests install a mock whose [Now]
    returns the instant they chose. *)
Record Source := mkSource { Now : Time }.

(** types.TimestampParams. *)
Record TimestampParams := mkTimestampParams {
  Precision : Duration;
  MsgDelay : Duration
}.

(** ** The timing functions under test *)

(** Negative intervals clamp to zero. *)
Definition clampZero (d : Duration) : Duration :=
  if d <? 0 then 0 else d.

(** Modelled from the spec: [proposerWaitTime] is defined in the consensus
    state machine, which is not among the sources; only its test is.  The
    proposer waits for the previous block time minus the local time, clamped
    at zero. *)
Definition proposerWaitTime (clock : Source) (previousBlockTime : Time)
    : Duration :=
  clampZero (Sub previousBlockTime (Now clock)).

(** Modelled from the spec: [proposalStepWaitingTime] is defined in the
    consensus state machine, which is not among the sources; only its test
    is.  The deadline is the previous block time plus Precision plus
    MsgDelay; the result is what is left until the deadline, clamped at
    zero. *)
Definition proposalStepWaitingTime (clock : Source) (previousBlockTime : Time)
    (params : TimestampParams) : Duration :=
  let deadline :=
    Add (Add previousBlockTime (Precision params)) (MsgDelay params) in
  clampZero (Sub deadline (Now clock)).

(** ** TestProposerWaitTime and TestProposalTimeout *)

(** time.Parse(time.RFC3339, "2019-03-13T23:00:00Z"). *)
Definition testGenesisTime : Time := 1552518000 * Second.

Record waitTimeCase := mkWaitTimeCase {
  wt_name : string;
  wt_previousBlockTime : Time;
  wt_localTime : Time;
  wt_expectedWait : Duration
}.

Definition TestProposerWaitTime_cases : list waitTimeCase :=
  [ mkWaitTimeCase "block time greater than local time"
      (Add testGenesisTime (5 * Nanosecond))
      (Add testGenesisTime (1 * Nanosecond))
      (4 * Nanosecond);
    mkWaitTimeCase "local time greater than block time"
      (Add testGenesisTime (1 * Nanosecond))
      (Add testGenesisTime (5 * Nanosecond))
      0;
    mkWaitTimeCase "both times equal"
      (Add testGenesisTime (5 * Nanosecond))
      (Add testGenesisTime (5 * Nanosecond))
      0 ].

(** The body of the sub-test: mock the clock, call, compare. *)
Definition runWaitTimeCase (testCase : waitTimeCase) : bool :=
  let mockSource := mkSource (wt_localTime testCase) in
  let ti := proposerWaitTime mockSource (wt_previousBlockTime testCase) in
  wt_expectedWait testCase =? ti.

Definition TestProposerWaitTime : bool :=
  forallb runWaitTimeCase TestProposerWaitTime_cases.

Record timeoutCase := mkTimeoutCase {
  to_name : string;
  to_localTime : Time;
  to_previousBlockTime : Time;
  to_precision : Duration;
  to_msgDelay : Duration;
  to_expectedDuration : Duration
}.

Definition TestProposalTimeout_cases : list timeoutCase :=
  [ mkTimeoutCase "MsgDelay + Precision has not quite elapsed"
      (Add testGenesisTime (525 * Millisecond))
      (Add testGenesisTime (6 * Millisecond))
      (Millisecond * 20) (Millisecond * 500)
      (1 * Millisecond);
    mkTimeoutCase "MsgDelay + Precision equals current time"
      (Add testGenesisTime (525 * Millisecond))
      (Add testGenesisTime (5 * Millisecond))
      (Millisecond * 20) (Millisecond * 500)
      0;
    mkTimeoutCase "MsgDelay + Precision has elapsed"
      (Add testGenesisTime (725 * Millisecond))
      (Add testGenesisTime (5 * Millisecond))
      (Millisecond * 20) (Millisecond * 500)
      0 ].

Definition runTimeoutCase (testCase : timeoutCase) : bool :=
  let mockSource := mkSource (to_localTime testCase) in
  let tp := mkTimestampParams (to_precision testCase) (to_msgDelay testCase) in
  let ti :=
    proposalStepWaitingTime mockSource (to_previousBlockTime testCase) tp in
  to_expectedDuration testCase =? ti.

Definition TestProposalTimeout : bool :=
  forallb runTimeoutCase TestProposalTimeout_cases.

(** ** The configurations of the two end-to-end tests *)

Record pbtsTestConfiguration := mkPbtsTestConfiguration {
  timestampParams : TimestampParams;
  timeoutPropose : Duration;
  genesisTime : Time;
  height2ProposalDeliverTime : Time;
  height2ProposedBlockTime : Time
}.

(** The configuration of TestReceiveProposalWaitsForPreviousBlockTime. *)
Definition cfgWaitsForPreviousBlockTime (initialTime : Time)
    : pbtsTestConfiguration :=
  mkPbtsTestConfiguration
    (mkTimestampParams (100 * Millisecond) (500 * Millisecond))
    (50 * Millisecond)
    initialTime
    (Add initialTime (450 * Millisecond))
    (Add initialTime (350 * Millisecond)).

(** The configuration of TestReceiveProposalTimesOutOnSlowDelivery. *)
Definition cfgTimesOutOnSlowDelivery (initialTime : Time)
    : pbtsTestConfiguration :=
  mkPbtsTestConfiguration
    (mkTimestampParams (100 * Millisecond) (500 * Millisecond))
    (50 * Millisecond)
    initialTime
    (Add initialTime (610 * Millisecond))
    (Add initialTime (350 * Millisecond)).

(** The bound both tests compare the prevote instant with. *)
Definition maxWaitingTime (cfg : pbtsTestConfiguration) : Time :=
  Add (Add (genesisTime cfg) (Precision (timestampParams cfg)))
      (MsgDelay (timestampParams cfg)).

(** ** The propose step of a validator that is not the proposer *)

(** A block ID is the nil sentinel or names a block by its hash. *)
Inductive BlockID :=
| NilBlockID
| BlockIDOf (hash : string).

(** A proposal and its block, complete at the validator: the local clock
    at the moment the full block is available, the block's header time and
    its ID. *)
Record Delivery := mkDelivery {
  availableAt : Time;
  blockTime : Time;
  blockHash : string
}.

(** The outcome of the step: the instant it moves on to Prevote and the
    block ID it votes for. *)
Record Prevote := mkPrevote {
  decidedAt : Time;
  voteBlockID : BlockID
}.

(** Modelled from the spec: the timeliness check belongs to the consensus
    state machine, which is not among the sources.  A block is timely when
    its timestamp is at least the previous block's and within plus or minus
    Precision of the local clock at the moment the full block is
    available. *)
Definition isTimely (params : TimestampParams) (previousBlockTime : Time)
    (localTime : Time) (blockTimestamp : Time) : bool :=
  (previousBlockTime <=? blockTimestamp)
  && (localTime - Precision params <=? blockTimestamp)
  && (blockTimestamp <=? localTime + Precision params).

(** Modelled from the spec: the propose timeout is chosen in the consensus
    state machine, which is not among the sources.  It is the larger of the
    configured propose timeout and the PBTS waiting time computed at step
    entry. *)
Definition effectiveProposeTimeout (params : TimestampParams)
    (timeoutPropose : Duration) (clock : Source) (previousBlockTime : Time)
    : Duration :=
  Z.max timeoutPropose
        (proposalStepWaitingTime clock previousBlockTime params).

(** Modelled from the spec: the timer of the propose step belongs to the
    consensus state machine, which is not among the sources.  The effective
    timeout is armed when the validator enters the step, with the local
    clock reading of that moment, and elapses that much later. *)
Definition elapsesAt (params : TimestampParams) (timeoutPropose : Duration)
    (previousBlockTime : Time) (enteredAt : Time) : Time :=
  Add enteredAt
      (effectiveProposeTimeout params timeoutPropose (mkSource enteredAt)
         previousBlockTime).

(** Modelled from the spec: the race of the propose step belongs to the
    consensus state machine, which is not among the sources.  A delivery
    resolves the race when the block is complete before the timeout elapses
    and passes the timeliness check at that moment. *)
Definition resolves (params : TimestampParams) (previousBlockTime : Time)
    (elapsesAt : Time) (d : Delivery) : bool :=
  (availableAt d <? elapsesAt)
  && isTimely params previousBlockTime (availableAt d) (blockTime d).

(** Modelled from the spec: the propose step belongs to the consensus state
    machine, which is not among the sources.  The validator enters the step
    at [enteredAt], arms the effective timeout, and waits for whichever comes
    first: a delivery that passes the timeliness check, which it prevotes
    for, or the timeout, on which it prevotes nil.  [deliveries] are in the
    order they reach the validator; one that fails the check, or is complete
    only when the timeout has elapsed, does not resolve the race. *)
Definition proposeStep (params : TimestampParams) (timeoutPropose : Duration)
    (previousBlockTime : Time) (enteredAt : Time)
    (deliveries : list Delivery) : Prevote :=
  let elapses :=
    elapsesAt params timeoutPropose previousBlockTime enteredAt in
  match find (resolves params previousBlockTime elapses) deliveries with
  | Some d => mkPrevote (availableAt d) (BlockIDOf (blockHash d))
  | None => mkPrevote elapses NilBlockID
  end.

(** The height-2 propose step of the observed validator in a test run: the
    previous block is the genesis-time block, and the harness delivers the
    one proposal of the configuration. *)
Definition height2Delivery (cfg : pbtsTestConfiguration) (hash : string)
    : Delivery :=
  mkDelivery (height2ProposalDeliverTime cfg) (height2ProposedBlockTime cfg)
             hash.

Definition height2 (cfg : pbtsTestConfiguration) (enteredAt : Time)
    (hash : string) : Prevote :=
  proposeStep (timestampParams cfg) (timeoutPropose cfg) (genesisTime cfg)
              enteredAt [height2Delivery cfg hash].

(** ** The propose step with the timeliness check left open *)

(** Modelled from the spec: the race of the propose step belongs to the
    consensus state machine, which is not among the sources.  This is
    [resolves] with the timeliness check as an argument: [timely] is given
    the local clock at the moment the full block is available and the
    timestamp of the block. *)
Definition resolvesWith (timely : Time -> Time -> bool) (elapsesAt : Time)
    (d : Delivery) : bool :=
  (availableAt d <? elapsesAt) && timely (availableAt d) (blockTime d).

(** Modelled from the spec: the propose step belongs to the consensus state
    machine, which is not among the sources.  This is [proposeStep] with the
    timeliness check as an argument. *)
Definition proposeStepWith (timely : Time -> Time -> bool)
    (params : TimestampParams) (timeoutPropose : Duration)
    (previousBlockTime : Time) (enteredAt : Time)
    (deliveries : list Delivery) : Prevote :=
  let elapses :=
    elapsesAt params timeoutPropose previousBlockTime enteredAt in
  match find (resolvesWith timely elapses) deliveries with
  | Some d => mkPrevote (availableAt d) (BlockIDOf (blockHash d))
  | None => mkPrevote elapses NilBlockID
  end.





End PBTS.

(* ================================================================== *)
(** * An instance of the parsers *)
(* ================================================================== *)

(** [Query.compileCondition] takes the parsers of numbers, dates and times
    as arguments.  The examples below run it with the parsers of this
    module.  On the strings [extractNum] can produce, [ParseFloat] returns
    the float strconv.ParseFloat returns whenever the digits, read as one
    integer, stay below 2^53 and at most 18 of them follow the point (one
    correctly rounded division then gives the nearest float); it covers no
    other input.  [ParseDate] reads the layout 2006-01-02 and [ParseTime]
    the layout 2006-01-02T15:04:05Z, both as nanoseconds since the Unix
    epoch. *)
Module Sample.
Import Query.

Local Open Scope Z_scope.

Definition digitValue (c : ascii) : Z := Z.of_nat (nat_of_ascii c) - 48.

Fixpoint decimalValue (acc : Z) (s : string) : option Z :=
  match s with
  | EmptyString => Some acc
  | String c s' =>
      if isDigit c then decimalValue (10 * acc + digitValue c) s' else None
  end.

Definition floatOfZ (n : Z) : float64 := PrimFloat.of_uint63 (Uint63.of_Z n).

Definition ParseFloat (s : string) : option float64 :=
  let (int, rest) := spanDigits s in
  match int, rest with
  | EmptyString, _ => None
  | _, EmptyString =>
      match decimalValue 0 int with
      | Some m => if m <? 2 ^ 53 then Some (floatOfZ m) else None
      | None => None
      end
  | _, String "."%char (String _ _ as frac) =>
      let k := Z.of_nat (String.length frac) in
      match decimalValue 0 (int ++ frac) with
      | Some m =>
          if (m <? 2 ^ 53) && (k <=? 18)
          then Some (PrimFloat.div (floatOfZ m) (floatOfZ (10 ^ k)))
          else None
      | None => None
      end
  | _, _ => None
  end.

(** Exactly [n] digits at the head of [s]: their value and the rest. *)
Fixpoint fixedDigits (n : nat) (acc : Z) (s : string) : option (Z * string) :=
  match n with
  | O => Some (acc, s)
  | S n' =>
      match s with
      | String c s' =>
          if isDigit c then fixedDigits n' (10 * acc + digitValue c) s'
          else None
      | EmptyString => None
      end
  end.

(** One given character at the head of [s]. *)
Definition expect (c : ascii) (s : string) : option string :=
  match s with
  | String c' s' => if Ascii.eqb c c' then Some s' else None
  | EmptyString => None
  end.

Definition isLeap (y : Z) : bool :=
  ((y mod 4 =? 0) && negb (y mod 100 =? 0)) || (y mod 400 =? 0).

Definition daysIn (y m : Z) : Z :=
  if m =? 2 then (if isLeap y then 29 else 28)
  else if (m =? 4) || (m =? 6) || (m =? 9) || (m =? 11) then 30
  else 31.

(** Days from 1970-01-01 to the given day of the proleptic Gregorian
    calendar. *)
Definition daysFromCivil (y m d : Z) : Z :=
  let y' := if m <=? 2 then y - 1 else y in
  let era := y' / 400 in
  let yoe := y' - era * 400 in
  let mp := (m + 9) mod 12 in
  let doy := (153 * mp + 2) / 5 + d - 1 in
  let doe := yoe * 365 + yoe / 4 - yoe / 100 + doy in
  era * 146097 + doe - 719468.

Definition nanosPerSecond : Z := 1000000000.

(** The date at the head of [s], as the instant of its midnight in UTC. *)
Definition readDate (s : string) : option (Time * string) :=
  match fixedDigits 4 0 s with
  | None => None
  | Some (y, s1) =>
  match expect "-" s1 with
  | None => None
  | Some s2 =>
  match fixedDigits 2 0 s2 with
  | None => None
  | Some (m, s3) =>
  match expect "-" s3 with
  | None => None
  | Some s4 =>
  match fixedDigits 2 0 s4 with
  | None => None
  | Some (d, s5) =>
      if (1 <=? m) && (m <=? 12) && (1 <=? d) && (d <=? daysIn y m)
      then Some (daysFromCivil y m d * 86400 * nanosPerSecond, s5)
      else None
  end end end end end.

Definition ParseDate (s : string) : option Time :=
  match readDate s with
  | Some (t, EmptyString) => Some t
  | _ => None
  end.

Definition ParseTime (s : string) : option Time :=
  match readDate s with
  | None => None
  | Some (t, s1) =>
  match expect "T" s1 with
  | None => None
  | Some s2 =>
  match fixedDigits 2 0 s2 with
  | None => None
  | Some (hh, s3) =>
  match expect ":" s3 with
  | None => None
  | Some s4 =>
  match fixedDigits 2 0 s4 with
  | None => None
  | Some (mm, s5) =>
  match expect ":" s5 with
  | None => None
  | Some s6 =>
  match fixedDigits 2 0 s6 with
  | None => None
  | Some (ss, s7) =>
      if (hh <? 24) && (mm <? 60) && (ss <? 60) && String.eqb s7 "Z"
      then Some (t + ((hh * 60 + mm) * 60 + ss) * nanosPerSecond)
      else None
  end end end end end end end.

(** [Query.compileCondition] and [Query.Compile] with these parsers. *)
Definition compileCondition : Condition -> condition + error :=
  Query.compileCondition ParseFloat ParseDate ParseTime.

Definition Compile : Query.Query -> Compiled + error :=
  Query.Compile ParseFloat ParseDate ParseTime.

(** Arguments as the parser of the query language builds them. *)
Definition stringArg (s : string) : Arg :=
  mkArg TString s PrimFloat.zero 0.

Definition numberArg (text : string) (n : float64) : Arg :=
  mkArg TNumber text n 0.

Definition dateArg (text : string) (t : Time) : Arg :=
  mkArg TDate text PrimFloat.zero t.

(** The conditions and events of the examples. *)

(** [account EXISTS]: a tag without a ".". *)
Definition accountExists : Condition := mkCondition "account" TExists None.

(** [account = 'Ivan']. *)
Definition accountIsIvan : Condition :=
  mkCondition "account" TEq (Some (stringArg "Ivan")).

(** [account.balance >= 100]. *)
Definition balanceAtLeast100 : Condition :=
  mkCondition "account.balance" TGeq (Some (numberArg "100" 100%float)).

(** [block.date = DATE 2019-03-13]. *)
Definition blockDateIs : Condition :=
  mkCondition "block.date" TEq
    (Some (dateArg "2019-03-13" 1552435200000000000)).

(** [transfer.sender = 'alice']. *)
Definition senderIsAlice : Condition :=
  mkCondition "transfer.sender" TEq (Some (stringArg "alice")).

Definition accountEvent : Event :=
  mkEvent "account" [mkAttr "owner" "Ivan"; mkAttr "balance" "150coins"].

Definition transferEvent : Event :=
  mkEvent "transfer"
    [mkAttr "sender" "bob"; mkAttr "amount" "5"; mkAttr "sender" "alice"].

(** [account.owner =] without an argument, and [account.owner < 'x']. *)
Definition ownerMissingArg : Condition :=
  mkCondition "account.owner" TEq None.

Definition ownerLessThan : Condition :=
  mkCondition "account.owner" TLt (Some (stringArg "x")).

(** [account.owner CONTAINS 'va']. *)
Definition ownerContains : Condition :=
  mkCondition "account.owner" TContains (Some (stringArg "va")).

(** What the conditions compile to. *)
Definition accountExists_compiled : condition :=
  mkCond "account" "" (fun _ => true).

Definition accountIsIvan_compiled : condition :=
  mkCond "account" "" (fun s => String.eqb s "Ivan").

Definition balanceAtLeast100_compiled : condition :=
  mkCond "account" "balance"
    (numberMatcher ParseFloat (fun w x => PrimFloat.leb x w)
       (IFloat64 100%float)).

Definition blockDateIs_compiled : condition :=
  mkCond "block" "date"
    (dateMatcher ParseDate (fun ts x => Equal ts x)
       (ITime 1552435200000000000)).

Definition senderIsAlice_compiled : condition :=
  mkCond "transfer" "sender" (fun s => String.eqb s "alice").

Definition ownerContains_compiled : condition :=
  mkCond "account" "owner" (fun s => Contains s "va").

(** Two compiled queries with the same conditions and two batches with the
    same events, in different orders and with repetitions. *)
Definition balanceAndAccount : Compiled :=
  mkCompiled [balanceAtLeast100; accountExists]
             [balanceAtLeast100_compiled; accountExists_compiled].

Definition accountAndBalance : Compiled :=
  mkCompiled [accountExists; balanceAtLeast100; accountExists]
             [accountExists_compiled; balanceAtLeast100_compiled;
              accountExists_compiled].

Definition accountOnly : Compiled :=
  mkCompiled [accountExists] [accountExists_compiled].

Definition batch : list Event := [accountEvent; transferEvent].

Definition batchReordered : list Event :=
  [transferEvent; accountEvent; accountEvent].

End Sample.

(* ================================================================== *)
(** * Part III: properties of the query matcher *)
(* ================================================================== *)

Module QueryFacts.
Import Query.

(** ** Vocabulary of the statements *)

(** The attributes of an event that carry the name [attrName]. *)
Definition named (attrName : string) (attrs : list EventAttribute)
    : list EventAttribute :=
  filter (fun a => String.eqb (Key a) attrName) attrs.

(** Whether a tag contains a ".". *)
Fixpoint hasDot (s : string) : bool :=
  match s with
  | EmptyString => false
  | String c s' => Ascii.eqb c "."%char || hasDot s'
  end.

(** Whether [s] begins with a decimal digit. *)
Definition headIsDigit (s : string) : bool :=
  match s with
  | EmptyString => false
  | String c _ => isDigit c
  end.

(** Whether [s] consists of decimal digits only. *)
Fixpoint allDigits (s : string) : bool :=
  match s with
  | EmptyString => true
  | String c s' => isDigit c && allDigits s'
  end.

(** The comparison a numeric condition makes, by operator: the parsed
    attribute value on the left, the argument of the condition on the
    right. *)
Definition compareNumber (op : Token) (w x : float64) : bool :=
  match op with
  | TEq => PrimFloat.eqb w x
  | TLt => PrimFloat.ltb w x
  | TLeq => PrimFloat.leb w x
  | TGt => PrimFloat.ltb x w
  | TGeq => PrimFloat.leb x w
  | _ => false
  end.

(** Whether the token is one of the four argument types the switch of
    [compileCondition] knows. *)
Definition isArgType (t : Token) : bool :=
  match t with
  | TString | TNumber | TTime | TDate => true
  | _ => false
  end.

(** The pairs of operator and argument type for which [opTypeMap] has an
    entry: CONTAINS with strings, [=] with every type, the four order
    comparisons with numbers, dates and times. *)
Definition validCombination (op argType : Token) : bool :=
  match op, argType with
  | TContains, TString => true
  | TEq, (TString | TNumber | TDate | TTime) => true
  | (TLt | TLeq | TGt | TGeq), (TNumber | TDate | TTime) => true
  | _, _ => false
  end.

(** The condition [cond] with another operator. *)
Definition withOp (cond : Condition) (op : Token) : Condition :=
  mkCondition (Tag cond) op (Arg_ cond).

(** ** Loops as list predicates *)

Lemma anyValue_existsb c vs : anyValue c vs = existsb (match_ c) vs.
Proof.
  induction vs as [|v vs IH]; simpl; [reflexivity|].
  rewrite IH. now destruct (match_ c v).
Qed.

Lemma matchesAny_existsb c events :
  matchesAny c events = existsb (matchesEvent c) events.
Proof.
  induction events as [|ev events IH]; simpl; [reflexivity|].
  rewrite IH. now destruct (matchesEvent c ev).
Qed.

Lemma matchesAny_Exists c events :
  matchesAny c events = true
  <-> Exists (fun ev => matchesEvent c ev = true) events.
Proof.
  rewrite matchesAny_existsb, existsb_exists, Exists_exists. reflexivity.
Qed.

Lemma matchesEvents_loop_spec cs events :
  matchesEvents_loop cs events
  = forallb (fun cond => matchesAny cond events) cs
    && negb (List.length events =? 0)%nat.
Proof.
  induction cs as [|cond cs IH]; simpl; [reflexivity|].
  rewrite IH. now destruct (matchesAny cond events).
Qed.

Lemma length_zero_nil {A} (l : list A) :
  negb (List.length l =? 0)%nat = true <-> l <> [].
Proof.
  destruct l; simpl; split; intros H; congruence.
Qed.

(** C7.  [matchesEvents] holds exactly when the list of events is not empty
    and every condition of the compiled query matches at least one event of
    the list; no query, not even one without conditions, matches the empty
    list. *)
Theorem matchesEvents_all_conditions_nonempty :
  (forall (c : Compiled) (events : list Event),
      matchesEvents c events = true
      <-> events <> []
          /\ Forall (fun cond =>
                       Exists (fun ev => matchesEvent cond ev = true) events)
                    (conds c))
  /\ (forall c : Compiled, matchesEvents c [] = false).
Proof.
  split.
  - intros c events. unfold matchesEvents.
    rewrite matchesEvents_loop_spec, andb_true_iff, length_zero_nil.
    rewrite forallb_forall, Forall_forall.
    split; intros [H1 H2].
    + split; [assumption|]. intros cond Hin.
      apply matchesAny_Exists. now apply H1.
    + split; [|assumption]. intros cond Hin.
      apply matchesAny_Exists. now apply H2.
  - intros c. unfold matchesEvents.
    rewrite matchesEvents_loop_spec. simpl. apply andb_false_r.
Qed.

(** ** [findAttr] and [matchesEvent] by cases on the attribute name *)

Lemma collect_values attrName attrs acc :
  fold_left
    (fun vals a =>
       if String.eqb (Key a) attrName then (vals ++ [Value a])%list else vals)
    attrs acc
  = (acc ++ map Value (named attrName attrs))%list.
Proof.
  revert acc. induction attrs as [|a attrs IH]; intros acc; simpl.
  - now rewrite app_nil_r.
  - rewrite IH. destruct (String.eqb (Key a) attrName); simpl.
    + now rewrite <- app_assoc.
    + reflexivity.
Qed.

Lemma eqb_empty_false s : s <> EmptyString -> String.eqb s EmptyString = false.
Proof. intros H. now apply String.eqb_neq. Qed.

Lemma findAttr_named c ev :
  attr c <> EmptyString ->
  findAttr c ev
  = if String.eqb (Type_ ev) (etype c)
    then (map Value (named (attr c) (Attributes ev)), true)
    else ([], false).
Proof.
  intros Hattr. unfold findAttr.
  destruct (String.eqb (Type_ ev) (etype c)); simpl; [|reflexivity].
  rewrite (eqb_empty_false _ Hattr), collect_values. reflexivity.
Qed.

Lemma findAttr_unnamed c ev :
  attr c = EmptyString ->
  findAttr c ev = ([], String.eqb (Type_ ev) (etype c)).
Proof.
  intros Hattr. unfold findAttr. rewrite Hattr.
  now destruct (String.eqb (Type_ ev) (etype c)).
Qed.

Lemma matchesEvent_named c ev :
  attr c <> EmptyString ->
  matchesEvent c ev
  = String.eqb (Type_ ev) (etype c)
    && existsb (match_ c) (map Value (named (attr c) (Attributes ev))).
Proof.
  intros Hattr. unfold matchesEvent. rewrite (findAttr_named _ _ Hattr).
  destruct (String.eqb (Type_ ev) (etype c)); simpl; [|reflexivity].
  destruct (map Value (named (attr c) (Attributes ev))) as [|v vs] eqn:E.
  - simpl. now rewrite (eqb_empty_false _ Hattr).
  - cbn [List.length Nat.eqb]. apply anyValue_existsb.
Qed.

Lemma matchesEvent_unnamed c ev :
  attr c = EmptyString ->
  matchesEvent c ev
  = String.eqb (Type_ ev) (etype c) && match_ c EmptyString.
Proof.
  intros Hattr. unfold matchesEvent. rewrite (findAttr_unnamed _ _ Hattr).
  destruct (String.eqb (Type_ ev) (etype c)); simpl; [|reflexivity].
  now rewrite Hattr.
Qed.

(** ** [splitTag] *)

Lemma index_dot_cons c tag :
  String.index 0 "." (String c tag)
  = if Ascii.eqb c "."%char then Some 0%nat
    else match String.index 0 "." tag with
         | Some n => Some (S n)
         | None => None
         end.
Proof.
  cbn [String.index String.prefix].
  destruct (ascii_dec "."%char c) as [E|E].
  - subst c. now destruct tag.
  - apply not_eq_sym in E. apply Ascii.eqb_neq in E. now rewrite E.
Qed.

Lemma index_dot_none tag :
  String.index 0 "." tag = None <-> hasDot tag = false.
Proof.
  induction tag as [|c tag IH].
  - split; reflexivity.
  - rewrite index_dot_cons. cbn [hasDot].
    destruct (Ascii.eqb c "."%char); cbn [orb].
    + split; discriminate.
    + rewrite <- IH. destruct (String.index 0 "." tag); split; congruence.
Qed.

Lemma splitTag_no_dot tag :
  hasDot tag = false -> splitTag tag = (tag, EmptyString).
Proof.
  intros H. unfold splitTag. apply index_dot_none in H. now rewrite H.
Qed.

(** ** The number-shaped head of a string *)

Lemma spanDigits_append s :
  s = (fst (spanDigits s) ++ snd (spanDigits s))%string.
Proof.
  induction s as [|c s IH]; simpl; [reflexivity|].
  destruct (isDigit c); [|reflexivity].
  destruct (spanDigits s) as [ds rest]; simpl in *. now rewrite <- IH.
Qed.

Lemma append_assoc (a b c : string) :
  ((a ++ b) ++ c = a ++ (b ++ c))%string.
Proof. induction a as [|x a IH]; simpl; [reflexivity|]. now rewrite IH. Qed.

Lemma append_empty_r (a : string) : (a ++ EmptyString)%string = a.
Proof. induction a as [|x a IH]; simpl; [reflexivity|]. now rewrite IH. Qed.

Lemma extractNum_is_prefix s :
  exists rest, s = (extractNum_FindString s ++ rest)%string.
Proof.
  unfold extractNum_FindString.
  pose proof (spanDigits_append s) as Hs.
  destruct (spanDigits s) as [int rest]; simpl in Hs.
  destruct int as [|d int].
  - now exists s.
  - destruct rest as [|c rest'].
    + exists EmptyString. exact Hs.
    + destruct (Ascii.eqb c "."%char) eqn:Hc.
      * apply Ascii.eqb_eq in Hc. subst c.
        pose proof (spanDigits_append rest') as Hr.
        destruct (spanDigits rest') as [frac more]; simpl in Hr.
        destruct frac as [|f frac].
        -- exists (String "."%char rest'). exact Hs.
        -- exists more. subst rest'. rewrite append_assoc. exact Hs.
      * exists (String c rest').
        replace (match c with
                 | "."%char => _
                 | _ => String d int
                 end) with (String d int); [exact Hs|].
        destruct c as [[] [] [] [] [] [] [] []]; try reflexivity.
        discriminate Hc.
Qed.

Lemma spanDigits_allDigits s : allDigits (fst (spanDigits s)) = true.
Proof.
  induction s as [|c s IH]; simpl; [reflexivity|].
  destruct (isDigit c) eqn:Hc; [|reflexivity].
  destruct (spanDigits s) as [ds rest]; simpl in *. now rewrite Hc.
Qed.

(** The head [extractNum] finds is a run of digits, or a run of digits, a
    point and another run of digits. *)
Lemma extractNum_shape s :
  headIsDigit s = true ->
  exists int frac,
    int <> EmptyString /\ allDigits int = true /\ allDigits frac = true
    /\ (extractNum_FindString s = int
        \/ frac <> EmptyString
           /\ extractNum_FindString s
              = (int ++ String "."%char frac)%string).
Proof.
  intros Hhead. unfold extractNum_FindString.
  pose proof (spanDigits_allDigits s) as Hint.
  destruct (spanDigits s) as [int rest] eqn:E; simpl in Hint.
  destruct int as [|d int].
  { destruct s as [|c s]; [discriminate|]. simpl in Hhead, E.
    rewrite Hhead in E. destruct (spanDigits s); discriminate. }
  assert (Hne : String d int <> EmptyString) by discriminate.
  destruct rest as [|c rest'].
  { exists (String d int), EmptyString. auto. }
  destruct (Ascii.eqb c "."%char) eqn:Hc.
  - apply Ascii.eqb_eq in Hc. subst c.
    pose proof (spanDigits_allDigits rest') as Hfrac.
    destruct (spanDigits rest') as [frac more]; simpl in Hfrac.
    destruct frac as [|f frac].
    + exists (String d int), EmptyString. auto.
    + exists (String d int), (String f frac).
      repeat split; try assumption. right. split; [discriminate|reflexivity].
  - exists (String d int), EmptyString. repeat split; try assumption.
    left. destruct c as [[] [] [] [] [] [] [] []]; try reflexivity.
    discriminate Hc.
Qed.

Lemma extractNum_no_digit s :
  headIsDigit s = false -> extractNum_FindString s = EmptyString.
Proof.
  destruct s as [|c s]; [reflexivity|]. simpl. intros H.
  unfold extractNum_FindString. simpl. now rewrite H.
Qed.

Lemma extractNum_starts_with_digit s :
  headIsDigit s = true -> headIsDigit (extractNum_FindString s) = true.
Proof.
  destruct s as [|c s]; [discriminate|]. simpl. intros H.
  unfold extractNum_FindString. simpl. rewrite H.
  destruct (spanDigits s) as [ds rest].
  destruct rest as [|r rest']; [exact H|].
  destruct r as [[] [] [] [] [] [] [] []]; try exact H.
  destruct (spanDigits rest') as [frac more].
  destruct frac; exact H.
Qed.

Section CompileFacts.

Variable ParseFloat : string -> option float64.
Variable ParseDate : string -> option Time.
Variable ParseTime : string -> option Time.

#[local] Abbreviation compileCondition :=
  (Query.compileCondition ParseFloat ParseDate ParseTime).
#[local] Abbreviation opTypeMap := (Query.opTypeMap ParseFloat ParseDate ParseTime).
#[local] Abbreviation parseNumber := (Query.parseNumber ParseFloat).

(** What [compileCondition] returns on success. *)
Lemma compileCondition_tag cond cd :
  compileCondition cond = inl cd ->
  (etype cd, attr cd) = splitTag (Tag cond).
Proof.
  unfold Query.compileCondition.
  destruct (splitTag (Tag cond)) as [e a].
  destruct (Token_eqb (Op cond) TExists).
  - intros [= <-]. reflexivity.
  - destruct (Arg_ cond) as [arg|]; [|discriminate].
    destruct (argValueOf arg) as [v|]; [|discriminate].
    destruct (opTypeMap (Op cond) (ArgType arg)); [|discriminate].
    intros [= <-]. reflexivity.
Qed.

Lemma compileCondition_exists cond :
  Op cond = TExists ->
  compileCondition cond
  = inl (mkCond (fst (splitTag (Tag cond))) (snd (splitTag (Tag cond)))
                (fun _ => true)).
Proof.
  intros H. unfold Query.compileCondition. rewrite H.
  now destruct (splitTag (Tag cond)).
Qed.

Lemma compileCondition_no_dot cond cd :
  compileCondition cond = inl cd ->
  hasDot (Tag cond) = false ->
  etype cd = Tag cond /\ attr cd = EmptyString.
Proof.
  intros Hc Hdot. apply compileCondition_tag in Hc.
  rewrite (splitTag_no_dot _ Hdot) in Hc. now inversion Hc.
Qed.

(** The match function of a compiled condition that takes an argument. *)
Lemma compileCondition_match cond cd arg :
  compileCondition cond = inl cd ->
  Op cond <> TExists ->
  Arg_ cond = Some arg ->
  exists mcons v,
    opTypeMap (Op cond) (ArgType arg) = Some mcons
    /\ argValueOf arg = inl v
    /\ match_ cd = mcons v.
Proof.
  intros Hc Hop Harg. unfold Query.compileCondition in Hc.
  destruct (splitTag (Tag cond)) as [e a].
  destruct (Token_eqb (Op cond) TExists) eqn:Hex.
  - exfalso. apply Hop. now destruct (Op cond).
  - rewrite Harg in Hc.
    destruct (argValueOf arg) as [v|]; [|discriminate].
    destruct (opTypeMap (Op cond) (ArgType arg)) as [mcons|]; [|discriminate].
    injection Hc as <-. now exists mcons, v.
Qed.

(** The dynamic type of the value handed to a matcher is the one the
    matcher asserts. *)
Lemma argValue_dynamic_type arg v :
  argValueOf arg = inl v ->
  match ArgType arg with
  | TString => v = IString (ArgValue arg)
  | TNumber => v = IFloat64 (ArgNumber arg)
  | TTime | TDate => v = ITime (ArgTime arg)
  | _ => False
  end.
Proof.
  unfold argValueOf. destruct (ArgType arg); intros H; now inversion H.
Qed.

Lemma numeric_match cond cd arg s :
  compileCondition cond = inl cd ->
  Op cond <> TExists ->
  Arg_ cond = Some arg ->
  ArgType arg = TNumber ->
  match_ cd s
  = match ParseFloat (extractNum_FindString s) with
    | Some w => compareNumber (Op cond) w (ArgNumber arg)
    | None => false
    end.
Proof.
  intros Hc Hop Harg Hty.
  destruct (compileCondition_match _ _ _ Hc Hop Harg) as (mcons & v & Hm & Hv & ->).
  apply argValue_dynamic_type in Hv. rewrite Hty in Hv, Hm. subst v.
  destruct (Op cond); simpl in Hm; try discriminate;
    injection Hm as <-; unfold numberMatcher, Query.parseNumber; simpl;
    reflexivity.
Qed.

Lemma failed_parse_no_match cond cd arg s :
  compileCondition cond = inl cd ->
  Op cond <> TExists ->
  Arg_ cond = Some arg ->
  (ArgType arg = TNumber -> parseNumber s = None -> match_ cd s = false)
  /\ (ArgType arg = TDate -> ParseDate s = None -> match_ cd s = false)
  /\ (ArgType arg = TTime -> ParseTime s = None -> match_ cd s = false).
Proof.
  intros Hc Hop Harg.
  destruct (compileCondition_match _ _ _ Hc Hop Harg) as (mcons & v & Hm & _ & ->).
  repeat split; intros Hty Hfail; rewrite Hty in Hm;
    destruct (Op cond); simpl in Hm; try discriminate;
    injection Hm as <-;
    unfold numberMatcher, dateMatcher, timeMatcher; now rewrite Hfail.
Qed.

(** C8 (amended).  A compiled condition whose attribute name is empty
    matches an event exactly when the event has the condition's event type
    and the condition's match function accepts the empty string.  For the
    existence operator the event type alone decides.  The attributes of the
    event play no part. *)
Theorem unnamed_condition_matches_on_empty_string cond cd ev :
  compileCondition cond = inl cd ->
  attr cd = EmptyString ->
  (matchesEvent cd ev = true
   <-> Type_ ev = etype cd /\ match_ cd EmptyString = true)
  /\ (Op cond = TExists ->
      (matchesEvent cd ev = true <-> Type_ ev = etype cd))
  /\ (forall attrs,
         matchesEvent cd (mkEvent (Type_ ev) attrs) = matchesEvent cd ev).
Proof.
  intros Hc Hattr. split; [|split].
  - rewrite (matchesEvent_unnamed _ _ Hattr), andb_true_iff, String.eqb_eq.
    reflexivity.
  - intros Hop. rewrite (compileCondition_exists _ Hop) in Hc.
    injection Hc as <-.
    rewrite matchesEvent_unnamed by exact Hattr. cbn [match_].
    rewrite andb_true_r. apply String.eqb_eq.
  - intros attrs. now rewrite !(matchesEvent_unnamed _ _ Hattr).
Qed.

(** C9.  [Matches] returns the nil error together with the result of
    [matchesEvents].  The match function of a compiled numeric condition
    parses the number-shaped head of the attribute value and compares the
    parsed number with the argument by the operator of the condition.  That
    head is a prefix of the value: empty when the value does not begin with a
    digit, and otherwise a run of digits, or a run of digits, a point and
    another run of digits.  When the number, date or time cannot be parsed the match
    function returns false. *)
Theorem Matches_nil_error_failed_parse_no_match :
  (forall (c : Compiled) (events : list Event),
      Matches c events = (matchesEvents c events, None))
  /\ (forall cond cd arg s,
         compileCondition cond = inl cd ->
         Op cond <> TExists ->
         Arg_ cond = Some arg ->
         ArgType arg = TNumber ->
         match_ cd s
         = match ParseFloat (extractNum_FindString s) with
           | Some w => compareNumber (Op cond) w (ArgNumber arg)
           | None => false
           end)
  /\ (forall s, exists rest, s = (extractNum_FindString s ++ rest)%string)
  /\ (forall s, headIsDigit s = false ->
                extractNum_FindString s = EmptyString)
  /\ (forall s, headIsDigit s = true ->
         exists int frac,
           int <> EmptyString /\ allDigits int = true
           /\ allDigits frac = true
           /\ (extractNum_FindString s = int
               \/ frac <> EmptyString
                  /\ extractNum_FindString s
                     = (int ++ String "."%char frac)%string))
  /\ (forall cond cd arg s,
         compileCondition cond = inl cd ->
         Op cond <> TExists ->
         Arg_ cond = Some arg ->
         (ArgType arg = TNumber -> parseNumber s = None ->
          match_ cd s = false)
         /\ (ArgType arg = TDate -> ParseDate s = None ->
             match_ cd s = false)
         /\ (ArgType arg = TTime -> ParseTime s = None ->
             match_ cd s = false)).
Proof.
  split; [reflexivity|].
  split; [exact numeric_match|].
  split; [exact extractNum_is_prefix|].
  split; [exact extractNum_no_digit|].
  split; [exact extractNum_shape|].
  exact failed_parse_no_match.
Qed.

(** C10.  For a condition with a non-empty attribute name: [findAttr]
    returns, on an event of the condition's type, the values of all the
    attributes whose key is that name, in order; [matchesEvent] holds
    exactly when the event has the condition's type and at least one of its
    attributes has that key and a value the match function accepts; and the
    condition does not match an event without such an attribute, also when
    it was compiled from the existence operator, whose match function
    accepts every value. *)
Theorem named_condition_matches_any_value (c : condition) (ev : Event) :
  attr c <> EmptyString ->
  (Type_ ev = etype c ->
   findAttr c ev = (map Value (named (attr c) (Attributes ev)), true))
  /\ (forall v,
         In v (map Value (named (attr c) (Attributes ev)))
         <-> exists a, In a (Attributes ev) /\ Key a = attr c /\ Value a = v)
  /\ (matchesEvent c ev = true
      <-> Type_ ev = etype c
          /\ exists a, In a (Attributes ev) /\ Key a = attr c
                       /\ match_ c (Value a) = true)
  /\ ((forall a, In a (Attributes ev) -> Key a <> attr c) ->
      matchesEvent c ev = false)
  /\ (forall cond,
         compileCondition cond = inl c -> Op cond = TExists ->
         (forall s, match_ c s = true)
         /\ ((forall a, In a (Attributes ev) -> Key a <> attr c) ->
             matchesEvent c ev = false)).
Proof.
  intros Hattr.
  assert (Hvals : forall v,
             In v (map Value (named (attr c) (Attributes ev)))
             <-> exists a, In a (Attributes ev) /\ Key a = attr c
                           /\ Value a = v).
  { intros v. rewrite in_map_iff. unfold named. split.
    - intros (a & Hv & Hin). apply filter_In in Hin as [Hin Hk].
      apply String.eqb_eq in Hk. now exists a.
    - intros (a & Hin & Hk & Hv). exists a. split; [assumption|].
      apply filter_In. split; [assumption|]. now apply String.eqb_eq. }
  assert (Habsent : (forall a, In a (Attributes ev) -> Key a <> attr c) ->
                    matchesEvent c ev = false).
  { intros Hno. rewrite (matchesEvent_named _ _ Hattr).
    destruct (existsb (match_ c) (map Value (named (attr c) (Attributes ev))))
      eqn:E; [|apply andb_false_r].
    apply existsb_exists in E as (v & Hin & _).
    apply Hvals in Hin as (a & Hin & Hk & _). now destruct (Hno a Hin). }
  split; [|split; [exact Hvals|split; [|split; [exact Habsent|]]]].
  - intros Hty. rewrite (findAttr_named _ _ Hattr).
    apply String.eqb_eq in Hty. now rewrite Hty.
  - rewrite (matchesEvent_named _ _ Hattr), andb_true_iff, String.eqb_eq.
    rewrite existsb_exists. split; intros [Hty Hex]; (split; [exact Hty|]).
    + destruct Hex as (v & Hin & Hm).
      apply Hvals in Hin as (a & Hin & Hk & <-). now exists a.
    + destruct Hex as (a & Hin & Hk & Hm). exists (Value a).
      split; [|exact Hm]. apply Hvals. now exists a.
  - intros cond Hc Hop. split; [|exact Habsent].
    rewrite (compileCondition_exists _ Hop) in Hc. injection Hc as <-.
    reflexivity.
Qed.

End CompileFacts.

(** ** The theorems at the sample conditions *)

Lemma samples_compile :
  Sample.compileCondition Sample.accountExists
  = inl Sample.accountExists_compiled
  /\ Sample.compileCondition Sample.accountIsIvan
     = inl Sample.accountIsIvan_compiled
  /\ Sample.compileCondition Sample.balanceAtLeast100
     = inl Sample.balanceAtLeast100_compiled
  /\ Sample.compileCondition Sample.blockDateIs
     = inl Sample.blockDateIs_compiled
  /\ Sample.compileCondition Sample.senderIsAlice
     = inl Sample.senderIsAlice_compiled
  /\ Sample.Compile [Sample.balanceAtLeast100; Sample.accountExists]
     = inl (mkCompiled [Sample.balanceAtLeast100; Sample.accountExists]
              [Sample.balanceAtLeast100_compiled;
               Sample.accountExists_compiled])
  /\ Sample.Compile
       [Sample.accountExists; mkCondition "account.owner" TEq None]
     = inr (ErrCompile (mkCondition "account.owner" TEq None)
              (ErrMissingArgument TEq)).
Proof. repeat split. Qed.

(** C8, as stated, fails: [account = 'Ivan'] compiles to a condition with an
    empty attribute name, the event has the type [account], and the
    condition does not match it. *)
Lemma unnamed_condition_type_alone_counterexample :
  Sample.compileCondition Sample.accountIsIvan
  = inl Sample.accountIsIvan_compiled
  /\ attr Sample.accountIsIvan_compiled = EmptyString
  /\ Type_ Sample.accountEvent = etype Sample.accountIsIvan_compiled
  /\ matchesEvent Sample.accountIsIvan_compiled Sample.accountEvent = false.
Proof. repeat split. Qed.

(** [account EXISTS] matches the event of type [account] whatever its
    attributes are. *)
Lemma unnamed_condition_witness :
  Sample.compileCondition Sample.accountExists
  = inl Sample.accountExists_compiled
  /\ attr Sample.accountExists_compiled = EmptyString
  /\ matchesEvent Sample.accountExists_compiled Sample.accountEvent = true
  /\ matchesEvent Sample.accountExists_compiled (mkEvent "account" []) = true.
Proof.
  assert (Hc : Sample.compileCondition Sample.accountExists
               = inl Sample.accountExists_compiled) by reflexivity.
  assert (Ha : attr Sample.accountExists_compiled = EmptyString)
    by reflexivity.
  destruct (unnamed_condition_matches_on_empty_string
              Sample.ParseFloat Sample.ParseDate Sample.ParseTime
              Sample.accountExists Sample.accountExists_compiled
              Sample.accountEvent Hc Ha) as (_ & H2 & H3).
  split; [exact Hc|]. split; [exact Ha|].
  assert (Hm : matchesEvent Sample.accountExists_compiled Sample.accountEvent
               = true) by (apply H2; reflexivity).
  split; [exact Hm|].
  rewrite <- Hm. exact (H3 []).
Defined.

(** [account.balance >= 100] against the values "150coins", "99.5" and
    "n/a", and [block.date = DATE 2019-03-13] against a date and against a
    text that is none. *)
Lemma numeric_condition_witness :
  Matches (mkCompiled [Sample.balanceAtLeast100; Sample.accountExists]
                      [Sample.balanceAtLeast100_compiled;
                       Sample.accountExists_compiled])
          [Sample.accountEvent]
  = (true, None)
  /\ match_ Sample.balanceAtLeast100_compiled "150coins" = true
  /\ match_ Sample.balanceAtLeast100_compiled "99.5" = false
  /\ match_ Sample.balanceAtLeast100_compiled "n/a" = false
  /\ match_ Sample.blockDateIs_compiled "2019-03-13" = true
  /\ match_ Sample.blockDateIs_compiled "13 March 2019" = false.
Proof.
  destruct (Matches_nil_error_failed_parse_no_match
              Sample.ParseFloat Sample.ParseDate Sample.ParseTime)
    as (H1 & H2 & _ & _ & _ & H5).
  assert (Hc : Sample.compileCondition Sample.balanceAtLeast100
               = inl Sample.balanceAtLeast100_compiled) by reflexivity.
  assert (Hop : Op Sample.balanceAtLeast100 <> TExists) by discriminate.
  assert (Hd : Sample.compileCondition Sample.blockDateIs
               = inl Sample.blockDateIs_compiled) by reflexivity.
  assert (Hopd : Op Sample.blockDateIs <> TExists) by discriminate.
  split; [rewrite H1; reflexivity|].
  split; [|split; [|split; [|split]]].
  - rewrite (H2 _ _ _ "150coins" Hc Hop eq_refl eq_refl). reflexivity.
  - rewrite (H2 _ _ _ "99.5" Hc Hop eq_refl eq_refl). reflexivity.
  - destruct (H5 _ _ _ "n/a" Hc Hop eq_refl) as (Hn & _ & _).
    apply Hn; reflexivity.
  - reflexivity.
  - destruct (H5 _ _ _ "13 March 2019" Hd Hopd eq_refl) as (_ & Hdate & _).
    apply Hdate; reflexivity.
Defined.

(** [transfer.sender = 'alice'] against an event with two senders. *)
Lemma named_condition_witness :
  attr Sample.senderIsAlice_compiled <> EmptyString
  /\ findAttr Sample.senderIsAlice_compiled Sample.transferEvent
     = (["bob"; "alice"], true)
  /\ matchesEvent Sample.senderIsAlice_compiled Sample.transferEvent = true
  /\ matchesEvent Sample.senderIsAlice_compiled
       (mkEvent "transfer" [mkAttr "amount" "5"]) = false.
Proof.
  assert (Ha : attr Sample.senderIsAlice_compiled <> EmptyString)
    by discriminate.
  split; [exact Ha|].
  destruct (named_condition_matches_any_value
              Sample.ParseFloat Sample.ParseDate Sample.ParseTime
              Sample.senderIsAlice_compiled Sample.transferEvent Ha)
    as (H1 & _ & H3 & _).
  split; [exact (H1 eq_refl)|].
  split.
  - apply H3. split; [reflexivity|].
    exists (mkAttr "sender" "alice").
    split; [right; right; left; reflexivity|]. split; reflexivity.
  - destruct (named_condition_matches_any_value
                Sample.ParseFloat Sample.ParseDate Sample.ParseTime
                Sample.senderIsAlice_compiled
                (mkEvent "transfer" [mkAttr "amount" "5"]) Ha)
      as (_ & _ & _ & H4 & _).
    apply H4. intros a [<-|[]]. discriminate.
Defined.

(** ** Compiling a query *)

Section CompileQuery.

Variable ParseFloat : string -> option float64.
Variable ParseDate : string -> option Time.
Variable ParseTime : string -> option Time.

#[local] Abbreviation compileCondition :=
  (Query.compileCondition ParseFloat ParseDate ParseTime).
#[local] Abbreviation Compile := (Query.Compile ParseFloat ParseDate ParseTime).
#[local] Abbreviation Compile_loop :=
  (Query.Compile_loop ParseFloat ParseDate ParseTime).
#[local] Abbreviation opTypeMap := (Query.opTypeMap ParseFloat ParseDate ParseTime).

(** [q] compiles to [cd]. *)
#[local] Abbreviation compilesTo :=
  (fun (q : Condition) (cd : condition) => compileCondition q = inl cd).

Lemma Compile_loop_inl ast cs :
  Compile_loop ast = inl cs <-> Forall2 compilesTo ast cs.
Proof.
  revert cs. induction ast as [|q ast IH]; intros cs; simpl.
  - split.
    + intros [= <-]. constructor.
    + intros H. inversion H. reflexivity.
  - destruct (compileCondition q) as [cd|err] eqn:Hq.
    + destruct (Query.Compile_loop ParseFloat ParseDate ParseTime ast)
        as [cs'|err'] eqn:Hrest.
      * split.
        -- intros [= <-]. constructor; [exact Hq|]. now apply IH.
        -- intros H. inversion H as [|q' cd' ast' cs'' Hc Hf]; subst.
           apply IH in Hf. rewrite Hq in Hc. congruence.
      * split; [discriminate|].
        intros H. inversion H as [|q' cd' ast' cs'' Hc Hf]; subst.
        apply IH in Hf. discriminate.
    + split; [discriminate|].
      intros H. inversion H as [|q' cd' ast' cs'' Hc Hf]; subst.
      rewrite Hq in Hc. discriminate.
Qed.

Lemma Compile_loop_inr ast e :
  Compile_loop ast = inr e ->
  exists before q after cs err,
    ast = (before ++ q :: after)%list
    /\ Forall2 compilesTo before cs
    /\ compileCondition q = inr err
    /\ e = ErrCompile q err.
Proof.
  revert e. induction ast as [|q ast IH]; intros e; simpl; [discriminate|].
  destruct (compileCondition q) as [cd|err] eqn:Hq.
  - destruct (Query.Compile_loop ParseFloat ParseDate ParseTime ast)
      as [cs'|err'] eqn:Hrest; [discriminate|].
    intros [= <-].
    destruct (IH err' eq_refl) as (before & q' & after & cs & err & -> & Hf & Hq' & ->).
    exists (q :: before), q', after, (cd :: cs), err.
    repeat split; try assumption. now constructor.
  - intros [= <-]. exists [], q, ast, [], err.
    repeat split; try assumption. constructor.
Qed.

(** X1.  [Compile] succeeds exactly when every condition of the AST
    compiles.  The compiled query then keeps the AST and holds the compiled
    conditions one for one, in the order of the AST. *)
Theorem Compile_succeeds_iff_all_conditions_compile
    (ast : Query.Query) (c : Compiled) :
  (Compile ast = inl c
   <-> Query.ast c = ast /\ Forall2 compilesTo ast (conds c))
  /\ (Compile ast = inl c -> List.length (conds c) = List.length ast).
Proof.
  assert (H : Compile ast = inl c
              <-> Query.ast c = ast /\ Forall2 compilesTo ast (conds c)).
  { unfold Query.Compile.
    destruct (Compile_loop ast) as [cs|err] eqn:Hl.
    - apply Compile_loop_inl in Hl. split.
      + intros [= <-]. now split.
      + intros [Hast Hf]. apply Compile_loop_inl in Hf, Hl.
        destruct c as [a cs']; simpl in *. subst a.
        rewrite Hl in Hf. congruence.
    - split; [discriminate|]. intros [_ Hf].
      apply Compile_loop_inl in Hf. rewrite Hl in Hf. discriminate. }
  split; [exact H|].
  intros Hc. apply H in Hc as [_ Hf]. symmetry.
  exact (Forall2_length Hf).
Qed.

(** X2.  When [Compile] fails, the error names the first condition of the
    AST that does not compile and wraps the error of that condition: all the
    conditions before it compile. *)
Theorem Compile_reports_first_failing_condition
    (ast : Query.Query) (e : error) :
  Compile ast = inr e ->
  exists before q after cs err,
    ast = (before ++ q :: after)%list
    /\ Forall2 compilesTo before cs
    /\ compileCondition q = inr err
    /\ e = ErrCompile q err.
Proof.
  unfold Query.Compile.
  destruct (Compile_loop ast) as [cs|err] eqn:Hl; [discriminate|].
  intros [= <-]. now apply Compile_loop_inr.
Qed.

Lemma validCombination_opTypeMap op argType :
  validCombination op argType = true
  <-> exists mcons, opTypeMap op argType = Some mcons.
Proof.
  destruct op, argType; simpl; split;
    try discriminate; try reflexivity;
    try (intros _; eexists; reflexivity);
    try (intros [m Hm]; discriminate).
Qed.

Lemma validCombination_isArgType op argType :
  validCombination op argType = true -> isArgType argType = true.
Proof. destruct op, argType; simpl; congruence. Qed.

Lemma argValueOf_isArgType arg :
  (isArgType (ArgType arg) = true -> exists v, argValueOf arg = inl v)
  /\ (isArgType (ArgType arg) = false ->
      argValueOf arg = inr (ErrUnknownArgumentType (ArgType arg))).
Proof.
  unfold argValueOf. destruct (ArgType arg); simpl; split;
    try discriminate; try reflexivity; intros _; eexists; reflexivity.
Qed.

Lemma Token_eqb_eq a b : Token_eqb a b = true <-> a = b.
Proof.
  destruct a, b; simpl; split; try discriminate; try reflexivity.
  - intros H. apply Nat.eqb_eq in H. now subst.
  - intros [= ->]. apply Nat.eqb_refl.
Qed.

Lemma Token_eqb_neq a b : a <> b -> Token_eqb a b = false.
Proof.
  intros H. destruct (Token_eqb a b) eqn:E; [|reflexivity].
  apply Token_eqb_eq in E. contradiction.
Qed.

(** X3.  [compileCondition] succeeds exactly for the existence operator,
    with or without an argument, and for an operator with an argument whose
    type the operator accepts.  Any other operator without an argument gives
    the missing-argument error; an argument that is no string, number, date
    or time gives the unknown-type error; and a known type the operator does
    not accept gives the invalid-combination error. *)
Theorem compileCondition_succeeds_iff_valid (cond : Condition) :
  ((exists cd, compileCondition cond = inl cd)
   <-> Op cond = TExists
       \/ exists arg, Arg_ cond = Some arg
                      /\ validCombination (Op cond) (ArgType arg) = true)
  /\ (Op cond <> TExists -> Arg_ cond = None ->
      compileCondition cond = inr (ErrMissingArgument (Op cond)))
  /\ (forall arg,
         Op cond <> TExists -> Arg_ cond = Some arg ->
         isArgType (ArgType arg) = false ->
         compileCondition cond = inr (ErrUnknownArgumentType (ArgType arg)))
  /\ (forall arg,
         Op cond <> TExists -> Arg_ cond = Some arg ->
         isArgType (ArgType arg) = true ->
         validCombination (Op cond) (ArgType arg) = false ->
         compileCondition cond
         = inr (ErrInvalidCombination (Op cond) (ArgType arg))).
Proof.
  assert (Hmissing : Op cond <> TExists -> Arg_ cond = None ->
            compileCondition cond = inr (ErrMissingArgument (Op cond))).
  { intros Hop Harg. unfold Query.compileCondition.
    destruct (splitTag (Tag cond)). rewrite (Token_eqb_neq _ _ Hop), Harg.
    reflexivity. }
  assert (Hunknown : forall arg,
            Op cond <> TExists -> Arg_ cond = Some arg ->
            isArgType (ArgType arg) = false ->
            compileCondition cond
            = inr (ErrUnknownArgumentType (ArgType arg))).
  { intros arg Hop Harg Hty. unfold Query.compileCondition.
    destruct (splitTag (Tag cond)). rewrite (Token_eqb_neq _ _ Hop), Harg.
    now rewrite (proj2 (argValueOf_isArgType arg) Hty). }
  assert (Hinvalid : forall arg,
            Op cond <> TExists -> Arg_ cond = Some arg ->
            isArgType (ArgType arg) = true ->
            validCombination (Op cond) (ArgType arg) = false ->
            compileCondition cond
            = inr (ErrInvalidCombination (Op cond) (ArgType arg))).
  { intros arg Hop Harg Hty Hval. unfold Query.compileCondition.
    destruct (splitTag (Tag cond)). rewrite (Token_eqb_neq _ _ Hop), Harg.
    destruct (proj1 (argValueOf_isArgType arg) Hty) as [v ->].
    destruct (opTypeMap (Op cond) (ArgType arg)) as [m|] eqn:Hm;
      [|reflexivity].
    assert (validCombination (Op cond) (ArgType arg) = true)
      by (apply validCombination_opTypeMap; now exists m).
    congruence. }
  split; [|split; [exact Hmissing|split; [exact Hunknown|exact Hinvalid]]].
  split.
  - intros [cd Hc].
    destruct (Token_eqb (Op cond) TExists) eqn:Hex.
    { left. now apply Token_eqb_eq. }
    assert (Hop : Op cond <> TExists).
    { intros E. apply Token_eqb_eq in E. congruence. }
    right. destruct (Arg_ cond) as [arg|] eqn:Harg.
    + exists arg. split; [reflexivity|].
      destruct (isArgType (ArgType arg)) eqn:Hty.
      * destruct (validCombination (Op cond) (ArgType arg)) eqn:Hval;
          [reflexivity|].
        rewrite (Hinvalid arg Hop eq_refl Hty Hval) in Hc. discriminate.
      * rewrite (Hunknown arg Hop eq_refl Hty) in Hc. discriminate.
    + rewrite (Hmissing Hop eq_refl) in Hc. discriminate.
  - intros [Hex | (arg & Harg & Hval)].
    + rewrite (compileCondition_exists _ _ _ _ Hex). eexists; reflexivity.
    + unfold Query.compileCondition. destruct (splitTag (Tag cond)).
      destruct (Token_eqb (Op cond) TExists); [eexists; reflexivity|].
      rewrite Harg.
      destruct (proj1 (argValueOf_isArgType arg)
                  (validCombination_isArgType _ _ Hval)) as [v ->].
      apply validCombination_opTypeMap in Hval as [m ->].
      eexists; reflexivity.
Qed.

End CompileQuery.

(** ** [splitTag] puts the tag back together *)

Lemma substring_full s : String.substring 0 (String.length s) s = s.
Proof. induction s as [|c s IH]; simpl; [reflexivity|]. now rewrite IH. Qed.

Lemma splitTag_cons c tag :
  splitTag (String c tag)
  = if Ascii.eqb c "."%char then (EmptyString, tag)
    else (String c (fst (splitTag tag)), snd (splitTag tag)).
Proof.
  unfold splitTag. rewrite index_dot_cons.
  destruct (Ascii.eqb c "."%char).
  - unfold sliceTo, sliceFrom. cbn [String.substring String.length Nat.add].
    rewrite Nat.sub_succ, Nat.sub_0_r. cbn [String.substring].
    now rewrite substring_full.
  - destruct (String.index 0 "." tag) as [n|]; [|reflexivity].
    unfold sliceTo, sliceFrom.
    cbn [String.substring String.length Nat.add fst snd Nat.sub].
    reflexivity.
Qed.

(** X4.  The event type [splitTag] returns never contains a ".".  When the
    tag contains one, the tag is the event type, a "." and the attribute
    name, so that the attribute name is everything after the first "." and
    may itself contain more; when the tag contains none, the event type is
    the whole tag and the attribute name is empty. *)
Theorem splitTag_splits_at_first_dot (tag : string) :
  hasDot (fst (splitTag tag)) = false
  /\ (hasDot tag = true ->
      tag = (fst (splitTag tag)
             ++ String "."%char (snd (splitTag tag)))%string)
  /\ (hasDot tag = false -> splitTag tag = (tag, EmptyString)).
Proof.
  split; [|split].
  - induction tag as [|c tag IH]; [reflexivity|].
    rewrite splitTag_cons. destruct (Ascii.eqb c "."%char) eqn:Hc;
      [reflexivity|].
    cbn [fst hasDot]. now rewrite Hc.
  - induction tag as [|c tag IH]; [discriminate|].
    rewrite splitTag_cons. cbn [hasDot].
    destruct (Ascii.eqb c "."%char) eqn:Hc.
    + intros _. apply Ascii.eqb_eq in Hc. now subst c.
    + cbn [orb fst snd append]. intros H. now rewrite <- (IH H).
  - apply splitTag_no_dot.
Qed.

(** ** What a match depends on *)

Lemma existsb_incl {A} (f : A -> bool) (l l' : list A) :
  (forall x, In x l -> In x l') -> existsb f l = true -> existsb f l' = true.
Proof.
  intros Hincl H. apply existsb_exists in H as (x & Hin & Hf).
  apply existsb_exists. exists x. auto.
Qed.

Lemma forallb_incl {A} (f : A -> bool) (l l' : list A) :
  (forall x, In x l' -> In x l) -> forallb f l = true -> forallb f l' = true.
Proof.
  intros Hincl H. rewrite forallb_forall in *. auto.
Qed.

Lemma bool_eq_iff (a b : bool) : (a = true <-> b = true) -> a = b.
Proof. destruct a, b; intros [H1 H2]; auto; symmetry; auto. Qed.

Lemma matchesEvents_true_iff c events :
  matchesEvents c events = true
  <-> events <> []
      /\ forall cond, In cond (conds c) ->
           exists ev, In ev events /\ matchesEvent cond ev = true.
Proof.
  unfold matchesEvents.
  rewrite matchesEvents_loop_spec, andb_true_iff, length_zero_nil.
  rewrite forallb_forall.
  split.
  - intros [H1 H2]. split; [exact H2|]. intros cond Hin.
    specialize (H1 cond Hin). rewrite matchesAny_existsb in H1.
    now apply existsb_exists in H1.
  - intros [H1 H2]. split; [|exact H1]. intros cond Hin.
    rewrite matchesAny_existsb. apply existsb_exists. auto.
Qed.

(** X5.  Whether a query matches a batch depends only on which events the
    batch contains and which conditions the query has: the order of the
    events, the order of the conditions and repetitions of either make no
    difference. *)
Theorem matchesEvents_ignores_order_and_repetition
    (c c' : Compiled) (events events' : list Event) :
  (forall ev, In ev events <-> In ev events') ->
  (forall cond, In cond (conds c) <-> In cond (conds c')) ->
  matchesEvents c events = matchesEvents c' events'.
Proof.
  intros Hev Hcond. apply bool_eq_iff.
  rewrite !matchesEvents_true_iff.
  assert (Hne : events <> [] <-> events' <> []).
  { destruct events as [|e l], events' as [|e' l'].
    - tauto.
    - exfalso. apply (proj2 (Hev e')). now left.
    - exfalso. apply (proj1 (Hev e)). now left.
    - split; discriminate. }
  split; intros [H1 H2]; (split; [tauto|]); intros cond Hin.
  - apply Hcond in Hin. destruct (H2 cond Hin) as (ev & Hi & Hm).
    exists ev. split; [now apply Hev|exact Hm].
  - apply Hcond in Hin. destruct (H2 cond Hin) as (ev & Hi & Hm).
    exists ev. split; [now apply Hev|exact Hm].
Qed.

(** X6.  A match is kept when events are added to the batch and when
    conditions are dropped from the query: a query that matches a batch
    matches every batch that contains the events of the first, and so does
    every query made of some of its conditions. *)
Theorem matchesEvents_more_events_fewer_conditions
    (c c' : Compiled) (events events' : list Event) :
  matchesEvents c events = true ->
  (forall ev, In ev events -> In ev events') ->
  (forall cond, In cond (conds c') -> In cond (conds c)) ->
  matchesEvents c' events' = true.
Proof.
  rewrite !matchesEvents_true_iff. intros [Hne H] Hev Hcond. split.
  - destruct events as [|e l]; [congruence|].
    intros ->. apply (Hev e). now left.
  - intros cond Hin. destruct (H cond (Hcond cond Hin)) as (ev & Hi & Hm).
    exists ev. auto.
Qed.

(** X7.  Whether a condition with a non-empty attribute name matches an
    event depends only on the event type and on which attributes of that
    name the event has: attributes under other keys, the order of the
    attributes and repeated attributes make no difference. *)
Theorem matchesEvent_ignores_other_attributes
    (c : condition) (eventType : string) (attrs attrs' : list EventAttribute) :
  attr c <> EmptyString ->
  (forall a, Key a = attr c -> (In a attrs <-> In a attrs')) ->
  matchesEvent c (mkEvent eventType attrs)
  = matchesEvent c (mkEvent eventType attrs').
Proof.
  intros Hattr Hsame. rewrite !(matchesEvent_named _ _ Hattr).
  cbn [Type_ Attributes]. f_equal. apply bool_eq_iff.
  assert (Hfilter : forall l l',
             (forall a, Key a = attr c -> In a l -> In a l') ->
             forall v, In v (map Value (named (attr c) l)) ->
                       In v (map Value (named (attr c) l'))).
  { intros l l' H v Hin. apply in_map_iff in Hin as (a & <- & Ha).
    apply filter_In in Ha as [Ha Hk]. apply in_map. apply filter_In.
    split; [|exact Hk]. apply H; [now apply String.eqb_eq|exact Ha]. }
  split; apply existsb_incl; apply Hfilter; intros a Hk; now apply Hsame.
Qed.

(** X8.  A query matches a batch only if, for each of its conditions, the
    batch contains an event of the event type of that condition; and a
    condition never matches an event of another type. *)
Theorem matchesEvents_needs_event_types (c : Compiled) (events : list Event) :
  (forall (cond : condition) (ev : Event),
      Type_ ev <> etype cond -> matchesEvent cond ev = false)
  /\ (matchesEvents c events = true ->
      forall cond, In cond (conds c) ->
        exists ev, In ev events /\ Type_ ev = etype cond).
Proof.
  assert (Htype : forall (cond : condition) (ev : Event),
             Type_ ev <> etype cond -> matchesEvent cond ev = false).
  { intros cond ev Hne. unfold matchesEvent, findAttr.
    apply String.eqb_neq in Hne. now rewrite Hne. }
  split; [exact Htype|].
  intros Hm cond Hin. apply matchesEvents_true_iff in Hm as [_ H].
  destruct (H cond Hin) as (ev & Hi & Hmatch). exists ev. split; [exact Hi|].
  destruct (String.eqb (Type_ ev) (etype cond)) eqn:E.
  - now apply String.eqb_eq.
  - apply String.eqb_neq in E. rewrite (Htype _ _ E) in Hmatch. discriminate.
Qed.

(** ** What the match functions compute *)

Lemma prefix_append p s :
  String.prefix p s = true <-> exists post, s = (p ++ post)%string.
Proof.
  revert s. induction p as [|a p IH]; intros s.
  - split; [intros _; now exists s|]. intros _. now destruct s.
  - destruct s as [|b s]; simpl.
    + split; [discriminate|]. intros [post H]. discriminate.
    + destruct (ascii_dec a b) as [->|Hne].
      * rewrite IH. split; intros [post H]; exists post.
        -- now rewrite H.
        -- now injection H.
      * split; [discriminate|]. intros [post H]. injection H as Hab _.
        congruence.
Qed.

Lemma Contains_substring s substr :
  Contains s substr = true
  <-> exists pre post, s = (pre ++ substr ++ post)%string.
Proof.
  induction s as [|c s IH]; cbn [Contains]; rewrite orb_true_iff.
  - rewrite prefix_append. split.
    + intros [[post H]|H]; [|discriminate]. now exists EmptyString, post.
    + intros (pre & post & H). left. destruct pre; [|discriminate].
      now exists post.
  - rewrite prefix_append, IH. split.
    + intros [[post H]|(pre & post & H)].
      * now exists EmptyString, post.
      * exists (String c pre), post. simpl. now rewrite H.
    + intros (pre & post & H). destruct pre as [|c' pre].
      * left. now exists post.
      * right. exists pre, post. simpl in H. now injection H.
Qed.

Lemma leb_ltb_eqb (x y : float64) :
  PrimFloat.leb x y = PrimFloat.ltb x y || PrimFloat.eqb x y.
Proof.
  rewrite FloatAxioms.leb_spec, FloatAxioms.ltb_spec, FloatAxioms.eqb_spec.
  unfold SpecFloat.SFleb, SpecFloat.SFltb, SpecFloat.SFeqb.
  destruct (SpecFloat.SFcompare _ _) as [[]|]; reflexivity.
Qed.

Lemma ltb_eqb_exclusive (x y : float64) :
  PrimFloat.ltb x y && PrimFloat.eqb x y = false.
Proof.
  rewrite FloatAxioms.ltb_spec, FloatAxioms.eqb_spec.
  unfold SpecFloat.SFltb, SpecFloat.SFeqb.
  destruct (SpecFloat.SFcompare _ _) as [[]|]; reflexivity.
Qed.

Lemma SFcompare_antisym (f1 f2 : SpecFloat.spec_float) :
  SpecFloat.SFcompare f2 f1
  = match SpecFloat.SFcompare f1 f2 with
    | Some c => Some (CompOpp c)
    | None => None
    end.
Proof.
  destruct f1 as [[|]|[|]| |[|] m1 e1], f2 as [[|]|[|]| |[|] m2 e2];
    try reflexivity; cbn [SpecFloat.SFcompare];
    rewrite (Z.compare_antisym e1 e2);
    destruct (Z.compare e1 e2); cbn [CompOpp]; try reflexivity;
    rewrite (eq_sym (Pos.compare_cont_antisym m1 m2 Eq)
             : Pos.compare_cont Eq m2 m1
               = CompOpp (Pos.compare_cont Eq m1 m2));
    now rewrite ?CompOpp_involutive.
Qed.

Lemma eqb_symmetric (x y : float64) : PrimFloat.eqb x y = PrimFloat.eqb y x.
Proof.
  rewrite !FloatAxioms.eqb_spec. unfold SpecFloat.SFeqb.
  rewrite (SFcompare_antisym (FloatOps.Prim2SF y) (FloatOps.Prim2SF x)).
  destruct (SpecFloat.SFcompare _ _) as [[]|]; reflexivity.
Qed.

Lemma ltb_ltb_exclusive (x y : float64) :
  PrimFloat.ltb x y && PrimFloat.ltb y x = false.
Proof.
  rewrite !FloatAxioms.ltb_spec. unfold SpecFloat.SFltb.
  rewrite (SFcompare_antisym (FloatOps.Prim2SF y) (FloatOps.Prim2SF x)).
  destruct (SpecFloat.SFcompare _ _) as [[]|]; reflexivity.
Qed.

Lemma spanDigits_head_rest s :
  headIsDigit (snd (spanDigits s)) = false.
Proof.
  induction s as [|c s IH]; simpl; [reflexivity|].
  destruct (isDigit c) eqn:Hc.
  - destruct (spanDigits s) as [ds rest]; simpl in *. exact IH.
  - simpl. exact Hc.
Qed.

Lemma spanDigits_run a b :
  allDigits a = true -> headIsDigit b = false ->
  spanDigits (a ++ b) = (a, b).
Proof.
  intros Ha Hb. induction a as [|c a IH]; cbn [append spanDigits].
  - destruct b as [|c b]; [reflexivity|]. cbn [headIsDigit] in Hb.
    cbn [spanDigits]. now rewrite Hb.
  - cbn [allDigits] in Ha. apply andb_true_iff in Ha as [Hc Ha].
    rewrite Hc, (IH Ha). reflexivity.
Qed.

Lemma spanDigits_all a :
  allDigits a = true -> spanDigits a = (a, EmptyString).
Proof.
  intros Ha. rewrite <- (append_empty_r a) at 1.
  now apply spanDigits_run.
Qed.

Lemma extractNum_idempotent s :
  extractNum_FindString (extractNum_FindString s) = extractNum_FindString s.
Proof.
  destruct (headIsDigit s) eqn:Hhead.
  - destruct (extractNum_shape s Hhead)
      as (int & frac & Hne & Hint & Hfrac & [E | [Hfne E]]); rewrite E.
    + unfold extractNum_FindString. rewrite (spanDigits_all int Hint).
      destruct int; [contradiction|reflexivity].
    + unfold extractNum_FindString.
      rewrite (spanDigits_run int (String "."%char frac) Hint eq_refl).
      rewrite (spanDigits_all frac Hfrac).
      destruct int; [contradiction|]. destruct frac; [contradiction|].
      reflexivity.
  - now rewrite (extractNum_no_digit s Hhead).
Qed.

Section Matchers.

Variable ParseFloat : string -> option float64.
Variable ParseDate : string -> option Time.
Variable ParseTime : string -> option Time.

#[local] Abbreviation compileCondition :=
  (Query.compileCondition ParseFloat ParseDate ParseTime).
#[local] Abbreviation Compile := (Query.Compile ParseFloat ParseDate ParseTime).
#[local] Abbreviation opTypeMap := (Query.opTypeMap ParseFloat ParseDate ParseTime).

(** The condition an operator with an entry in [opTypeMap] compiles to. *)
Lemma compileCondition_withOp cond op arg v mcons :
  op <> TExists ->
  Arg_ cond = Some arg ->
  argValueOf arg = inl v ->
  opTypeMap op (ArgType arg) = Some mcons ->
  compileCondition (withOp cond op)
  = inl (mkCond (fst (splitTag (Tag cond))) (snd (splitTag (Tag cond)))
                (mcons v)).
Proof.
  intros Hop Harg Hv Hm. unfold Query.compileCondition, withOp.
  cbn [Tag Op Arg_]. destruct (splitTag (Tag cond)).
  rewrite (Token_eqb_neq _ _ Hop), Harg, Hv, Hm. reflexivity.
Qed.

(** X9.  A compiled [=] condition with a string argument accepts exactly
    the attribute values equal to the argument, character for character, and
    a compiled CONTAINS condition accepts exactly the values in which the
    argument occurs as a substring; so CONTAINS accepts whatever [=] accepts,
    and CONTAINS with the empty string accepts every value. *)
Theorem string_conditions_compare_text
    (cond : Condition) (cd : condition) (arg : Arg) :
  compileCondition cond = inl cd ->
  Arg_ cond = Some arg ->
  ArgType arg = TString ->
  (Op cond = TEq ->
   forall s, match_ cd s = true <-> s = ArgValue arg)
  /\ (Op cond = TContains ->
      (forall s, match_ cd s = true
                 <-> exists pre post,
                       s = (pre ++ ArgValue arg ++ post)%string)
      /\ match_ cd (ArgValue arg) = true
      /\ (ArgValue arg = EmptyString -> forall s, match_ cd s = true)).
Proof.
  intros Hc Harg Hty.
  assert (Hmatch : forall op, Op cond = op -> op <> TExists ->
            exists mcons, opTypeMap op TString = Some mcons
                          /\ match_ cd = mcons (IString (ArgValue arg))).
  { intros op Hop Hne. subst op.
    destruct (compileCondition_match _ _ _ _ _ _ Hc Hne Harg)
      as (mcons & v & Hm & Hv & Hmatch).
    apply argValue_dynamic_type in Hv. rewrite Hty in Hv, Hm. subst v.
    now exists mcons. }
  split.
  - intros Hop. destruct (Hmatch TEq Hop) as (mcons & Hm & ->);
      [discriminate|].
    injection Hm as <-. intros s. cbn [assertString]. apply String.eqb_eq.
  - intros Hop. destruct (Hmatch TContains Hop) as (mcons & Hm & ->);
      [discriminate|].
    injection Hm as <-. cbn [assertString].
    assert (Hsub : forall s, Contains s (ArgValue arg) = true
                     <-> exists pre post,
                           s = (pre ++ ArgValue arg ++ post)%string)
      by (intros s; apply Contains_substring).
    split; [exact Hsub|]. split.
    + apply Hsub. exists EmptyString, EmptyString.
      simpl. now rewrite append_empty_r.
    + intros He s. apply Hsub. exists EmptyString, s. now rewrite He.
Qed.

(** X10.  For a date or time argument the five comparison operators
    compile, and on an attribute value that parses they compare the parsed
    instant with the argument: [<] accepts the value exactly when the instant
    is earlier than the argument, [=] when it is the same instant and [>]
    when it is later; [<=] accepts what [<] or [=] accepts and [>=] what [>]
    or [=] accepts; [>=] accepts exactly what [<] rejects, and [<=] what [>]
    rejects. *)
Theorem date_time_conditions_order_instants
    (cond : Condition) (arg : Arg) (s : string) (ts : Time) :
  Arg_ cond = Some arg ->
  (ArgType arg = TDate /\ ParseDate s = Some ts)
  \/ (ArgType arg = TTime /\ ParseTime s = Some ts) ->
  exists cdLt cdLeq cdEq cdGeq cdGt,
    compileCondition (withOp cond TLt) = inl cdLt
    /\ compileCondition (withOp cond TLeq) = inl cdLeq
    /\ compileCondition (withOp cond TEq) = inl cdEq
    /\ compileCondition (withOp cond TGeq) = inl cdGeq
    /\ compileCondition (withOp cond TGt) = inl cdGt
    /\ (match_ cdLt s = true <-> (ts < ArgTime arg)%Z)
    /\ (match_ cdEq s = true <-> ts = ArgTime arg)
    /\ (match_ cdGt s = true <-> (ArgTime arg < ts)%Z)
    /\ match_ cdLeq s = match_ cdLt s || match_ cdEq s
    /\ match_ cdGeq s = match_ cdGt s || match_ cdEq s
    /\ match_ cdGeq s = negb (match_ cdLt s)
    /\ match_ cdLeq s = negb (match_ cdGt s).
Proof.
  intros Harg [[Hty Hp] | [Hty Hp]].
  - assert (Hv : argValueOf arg = inl (ITime (ArgTime arg)))
      by (unfold argValueOf; now rewrite Hty).
    do 5 eexists.
    repeat (split;
            [eapply compileCondition_withOp;
             [discriminate | exact Harg | exact Hv | rewrite Hty; reflexivity]
            |]).
    cbn [match_]. unfold dateMatcher. rewrite Hp. cbn [assertTime].
    unfold Before, After, Equal.
    rewrite Z.ltb_lt, Z.eqb_eq, Z.ltb_lt.
    repeat split; try tauto;
      destruct (Z.ltb_spec ts (ArgTime arg)), (Z.eqb_spec ts (ArgTime arg)),
               (Z.ltb_spec (ArgTime arg) ts); simpl; try reflexivity; lia.
  - assert (Hv : argValueOf arg = inl (ITime (ArgTime arg)))
      by (unfold argValueOf; now rewrite Hty).
    do 5 eexists.
    repeat (split;
            [eapply compileCondition_withOp;
             [discriminate | exact Harg | exact Hv | rewrite Hty; reflexivity]
            |]).
    cbn [match_]. unfold timeMatcher. rewrite Hp. cbn [assertTime].
    unfold Before, After, Equal.
    rewrite Z.ltb_lt, Z.eqb_eq, Z.ltb_lt.
    repeat split; try tauto;
      destruct (Z.ltb_spec ts (ArgTime arg)), (Z.eqb_spec ts (ArgTime arg)),
               (Z.ltb_spec (ArgTime arg) ts); simpl; try reflexivity; lia.
Qed.

(** X11.  For a number argument the five comparison operators compile,
    and on every attribute value [<=] accepts exactly what [<] or [=]
    accepts, [>=] exactly what [>] or [=] accepts, and no value is accepted
    by two of [<], [=] and [>]. *)
Theorem number_conditions_are_consistent (cond : Condition) (arg : Arg) :
  Arg_ cond = Some arg ->
  ArgType arg = TNumber ->
  exists cdLt cdLeq cdEq cdGeq cdGt,
    compileCondition (withOp cond TLt) = inl cdLt
    /\ compileCondition (withOp cond TLeq) = inl cdLeq
    /\ compileCondition (withOp cond TEq) = inl cdEq
    /\ compileCondition (withOp cond TGeq) = inl cdGeq
    /\ compileCondition (withOp cond TGt) = inl cdGt
    /\ forall s,
         match_ cdLeq s = match_ cdLt s || match_ cdEq s
         /\ match_ cdGeq s = match_ cdGt s || match_ cdEq s
         /\ match_ cdLt s && match_ cdEq s = false
         /\ match_ cdGt s && match_ cdEq s = false
         /\ match_ cdLt s && match_ cdGt s = false.
Proof.
  intros Harg Hty.
  assert (Hv : argValueOf arg = inl (IFloat64 (ArgNumber arg)))
    by (unfold argValueOf; now rewrite Hty).
  do 5 eexists.
  repeat (split;
          [eapply compileCondition_withOp;
           [discriminate | exact Harg | exact Hv | rewrite Hty; reflexivity]
          |]).
  intros s. cbn [match_]. unfold numberMatcher. cbn [assertFloat64].
  destruct (Query.parseNumber ParseFloat s) as [w|]; [|now repeat split].
  repeat split.
  - apply leb_ltb_eqb.
  - rewrite leb_ltb_eqb. f_equal. apply eqb_symmetric.
  - apply ltb_eqb_exclusive.
  - rewrite (eqb_symmetric w). apply ltb_eqb_exclusive.
  - apply ltb_ltb_exclusive.
Qed.

(** X12.  A compiled numeric condition looks at nothing but the
    number-shaped head of the attribute value: it treats the value like its
    head alone, two values with the same head alike, and a value that does
    not begin with a digit, such as one with a sign or a leading blank, like
    the empty string. *)
Theorem numeric_condition_reads_head_only
    (cond : Condition) (cd : condition) (arg : Arg) :
  compileCondition cond = inl cd ->
  Op cond <> TExists ->
  Arg_ cond = Some arg ->
  ArgType arg = TNumber ->
  (forall s, match_ cd s = match_ cd (extractNum_FindString s))
  /\ (forall s s',
         extractNum_FindString s = extractNum_FindString s' ->
         match_ cd s = match_ cd s')
  /\ (forall s, headIsDigit s = false -> match_ cd s = match_ cd EmptyString).
Proof.
  intros Hc Hop Harg Hty.
  pose proof (fun s => numeric_match ParseFloat ParseDate ParseTime
                         cond cd arg s Hc Hop Harg Hty) as Hm.
  split; [|split].
  - intros s. now rewrite (Hm s), (Hm (extractNum_FindString s)),
      extractNum_idempotent.
  - intros s s' E. now rewrite (Hm s), (Hm s'), E.
  - intros s Hhead. rewrite (Hm s), (Hm EmptyString).
    now rewrite (extractNum_no_digit s Hhead).
Qed.

Lemma Compile_loop_app (a1 a2 : Query.Query) :
  Query.Compile_loop ParseFloat ParseDate ParseTime (a1 ++ a2)%list
  = match Query.Compile_loop ParseFloat ParseDate ParseTime a1 with
    | inr e => inr e
    | inl cs1 =>
        match Query.Compile_loop ParseFloat ParseDate ParseTime a2 with
        | inr e => inr e
        | inl cs2 => inl (cs1 ++ cs2)%list
        end
    end.
Proof.
  induction a1 as [|q a1 IH]; cbn [app Query.Compile_loop].
  - now destruct (Query.Compile_loop ParseFloat ParseDate ParseTime a2).
  - destruct (compileCondition q); [|reflexivity]. rewrite IH.
    destruct (Query.Compile_loop ParseFloat ParseDate ParseTime a1);
      [|reflexivity].
    now destruct (Query.Compile_loop ParseFloat ParseDate ParseTime a2).
Qed.

Lemma matchesEvents_loop_app (cs1 cs2 : list condition) events :
  matchesEvents_loop (cs1 ++ cs2)%list events
  = matchesEvents_loop cs1 events && matchesEvents_loop cs2 events.
Proof.
  rewrite !matchesEvents_loop_spec, forallb_app.
  destruct (forallb _ cs1), (forallb _ cs2),
           (negb (List.length events =? 0)%nat); reflexivity.
Qed.

(** X13.  A query is the conjunction of its conditions under
    concatenation: when two ASTs compile, so does the one made of the first
    followed by the second, its conditions are those of the first followed by
    those of the second, and it matches a batch exactly when both queries
    match it.  When one of them fails to compile the whole fails with that
    error, the error of the first before the error of the second. *)
Theorem Compile_of_concatenation_is_conjunction (a1 a2 : Query.Query) :
  (forall c1 c2,
      Compile a1 = inl c1 -> Compile a2 = inl c2 ->
      exists c,
        Compile (a1 ++ a2)%list = inl c
        /\ conds c = (conds c1 ++ conds c2)%list
        /\ forall events,
             matchesEvents c events
             = matchesEvents c1 events && matchesEvents c2 events)
  /\ (forall e, Compile a1 = inr e -> Compile (a1 ++ a2)%list = inr e)
  /\ (forall c1 e,
         Compile a1 = inl c1 -> Compile a2 = inr e ->
         Compile (a1 ++ a2)%list = inr e).
Proof.
  unfold Query.Compile. rewrite Compile_loop_app.
  destruct (Query.Compile_loop ParseFloat ParseDate ParseTime a1)
    as [cs1|e1];
    destruct (Query.Compile_loop ParseFloat ParseDate ParseTime a2)
      as [cs2|e2];
    (split; [|split]); try discriminate; try (intros; assumption).
  - intros c1 c2 [= <-] [= <-]. eexists. split; [reflexivity|].
    split; [reflexivity|]. intros events. apply matchesEvents_loop_app.
  all: try (intros c1 c2 _ H; discriminate H).
  all: try (intros c1 e _ H; exact H).
  all: intros c1 c2 H; discriminate H.
Qed.

(** X14.  A query made of one existence condition compiles whatever the
    tag and the argument are, and it matches a batch exactly when the batch
    has an event of the event type of the tag that, if the tag names an
    attribute, carries an attribute of that name. *)
Theorem exists_query_matches_on_presence
    (tag : string) (arg : option Arg) (events : list Event) :
  exists c,
    Compile [mkCondition tag TExists arg] = inl c
    /\ (Matches c events = (true, None)
        <-> exists ev,
              In ev events
              /\ Type_ ev = fst (splitTag tag)
              /\ (snd (splitTag tag) = EmptyString
                  \/ exists a, In a (Attributes ev)
                               /\ Key a = snd (splitTag tag))).
Proof.
  unfold Query.Compile. cbn [Query.Compile_loop].
  rewrite (compileCondition_exists ParseFloat ParseDate ParseTime
             (mkCondition tag TExists arg) eq_refl).
  cbn [Tag]. eexists. split; [reflexivity|].
  unfold Matches. split.
  - intros [= Hm]. apply matchesEvents_true_iff in Hm as [_ H].
    destruct (H _ (or_introl eq_refl)) as (ev & Hin & Hev).
    exists ev. split; [exact Hin|].
    destruct (string_dec (snd (splitTag tag)) EmptyString) as [He|Hne].
    + rewrite matchesEvent_unnamed in Hev by exact He.
      apply andb_true_iff in Hev as [Hty _]. apply String.eqb_eq in Hty.
      split; [exact Hty | now left].
    + rewrite matchesEvent_named in Hev by exact Hne.
      apply andb_true_iff in Hev as [Hty Hex]. apply String.eqb_eq in Hty.
      split; [exact Hty|]. right.
      apply existsb_exists in Hex as (v & Hv & _).
      apply in_map_iff in Hv as (a & _ & Ha).
      apply filter_In in Ha as [Ha Hk]. apply String.eqb_eq in Hk.
      now exists a.
  - intros (ev & Hin & Hty & Hattr). f_equal.
    apply matchesEvents_true_iff. split.
    + intros ->. contradiction.
    + intros cond [<-|[]]. exists ev. split; [exact Hin|].
      destruct (string_dec (snd (splitTag tag)) EmptyString) as [He|Hne].
      * rewrite matchesEvent_unnamed by exact He. cbn [etype match_].
        rewrite andb_true_r. now apply String.eqb_eq.
      * rewrite matchesEvent_named by exact Hne. cbn [etype attr match_].
        apply andb_true_iff. split; [now apply String.eqb_eq|].
        destruct Hattr as [He | (a & Ha & Hk)]; [contradiction|].
        apply existsb_exists. exists (Value a). split; [|reflexivity].
        apply in_map. apply filter_In. split; [exact Ha|].
        now apply String.eqb_eq.
Qed.

End Matchers.

(** ** The further theorems at the sample conditions *)

(** The second of three conditions has no argument. *)
Lemma Compile_first_error_witness :
  Sample.Compile
    [Sample.accountExists; Sample.ownerMissingArg; Sample.ownerLessThan]
  = inr (ErrCompile Sample.ownerMissingArg (ErrMissingArgument TEq))
  /\ exists before q after cs err,
       [Sample.accountExists; Sample.ownerMissingArg; Sample.ownerLessThan]
       = (before ++ q :: after)%list
       /\ Forall2 (fun q' cd => Sample.compileCondition q' = inl cd) before cs
       /\ Sample.compileCondition q = inr err
       /\ ErrCompile Sample.ownerMissingArg (ErrMissingArgument TEq)
          = ErrCompile q err.
Proof.
  assert (H : Sample.Compile
                [Sample.accountExists; Sample.ownerMissingArg;
                 Sample.ownerLessThan]
              = inr (ErrCompile Sample.ownerMissingArg
                       (ErrMissingArgument TEq))) by reflexivity.
  split; [exact H|].
  exact (Compile_reports_first_failing_condition
           Sample.ParseFloat Sample.ParseDate Sample.ParseTime _ _ H).
Defined.

Lemma order_and_repetition_witness :
  (forall ev, In ev Sample.batch <-> In ev Sample.batchReordered)
  /\ (forall cond,
         In cond (conds Sample.balanceAndAccount)
         <-> In cond (conds Sample.accountAndBalance))
  /\ matchesEvents Sample.balanceAndAccount Sample.batch
     = matchesEvents Sample.accountAndBalance Sample.batchReordered.
Proof.
  assert (Hev : forall ev, In ev Sample.batch <-> In ev Sample.batchReordered)
    by (intros ev; simpl; tauto).
  assert (Hc : forall cond,
             In cond (conds Sample.balanceAndAccount)
             <-> In cond (conds Sample.accountAndBalance))
    by (intros cond; simpl; tauto).
  split; [exact Hev|]. split; [exact Hc|].
  exact (matchesEvents_ignores_order_and_repetition _ _ _ _ Hev Hc).
Defined.

Lemma more_events_fewer_conditions_witness :
  matchesEvents Sample.balanceAndAccount [Sample.accountEvent] = true
  /\ matchesEvents Sample.accountOnly Sample.batch = true.
Proof.
  assert (Hm : matchesEvents Sample.balanceAndAccount [Sample.accountEvent]
               = true) by reflexivity.
  split; [exact Hm|].
  apply (matchesEvents_more_events_fewer_conditions _ _ _ _ Hm).
  - intros ev Hin. simpl in *. tauto.
  - intros cond Hin. simpl in *. tauto.
Defined.

Lemma other_attributes_witness :
  attr Sample.senderIsAlice_compiled <> EmptyString
  /\ matchesEvent Sample.senderIsAlice_compiled Sample.transferEvent
     = matchesEvent Sample.senderIsAlice_compiled
         (mkEvent "transfer"
            [mkAttr "sender" "alice"; mkAttr "sender" "bob"]).
Proof.
  assert (Ha : attr Sample.senderIsAlice_compiled <> EmptyString)
    by discriminate.
  split; [exact Ha|].
  apply (matchesEvent_ignores_other_attributes _ "transfer"
           [mkAttr "sender" "bob"; mkAttr "amount" "5";
            mkAttr "sender" "alice"]
           [mkAttr "sender" "alice"; mkAttr "sender" "bob"] Ha).
  intros a Hk. cbn [attr Sample.senderIsAlice_compiled] in Hk. split.
  - intros [<-|[<-|[<-|[]]]].
    + right. left. reflexivity.
    + discriminate Hk.
    + left. reflexivity.
  - intros [<-|[<-|[]]].
    + right. right. left. reflexivity.
    + left. reflexivity.
Defined.

Lemma string_conditions_witness :
  match_ Sample.senderIsAlice_compiled "alice" = true
  /\ match_ Sample.ownerContains_compiled "Ivan" = true.
Proof.
  split.
  - destruct (string_conditions_compare_text
                Sample.ParseFloat Sample.ParseDate Sample.ParseTime
                Sample.senderIsAlice Sample.senderIsAlice_compiled
                (Sample.stringArg "alice") eq_refl eq_refl eq_refl)
      as (Heq & _).
    apply (Heq eq_refl). reflexivity.
  - destruct (string_conditions_compare_text
                Sample.ParseFloat Sample.ParseDate Sample.ParseTime
                Sample.ownerContains Sample.ownerContains_compiled
                (Sample.stringArg "va") eq_refl eq_refl eq_refl)
      as (_ & Hcontains).
    destruct (Hcontains eq_refl) as (Hsub & _).
    apply Hsub. exists "I", "n". reflexivity.
Defined.

Lemma date_conditions_witness :
  Sample.ParseDate "2019-03-12" = Some 1552348800000000000%Z
  /\ exists cdLt cdGeq,
       Sample.compileCondition (withOp Sample.blockDateIs TLt) = inl cdLt
       /\ Sample.compileCondition (withOp Sample.blockDateIs TGeq)
          = inl cdGeq
       /\ match_ cdLt "2019-03-12" = true
       /\ match_ cdGeq "2019-03-12" = false.
Proof.
  assert (Hp : Sample.ParseDate "2019-03-12" = Some 1552348800000000000%Z)
    by reflexivity.
  split; [exact Hp|].
  destruct (date_time_conditions_order_instants
              Sample.ParseFloat Sample.ParseDate Sample.ParseTime
              Sample.blockDateIs
              (Sample.dateArg "2019-03-13" 1552435200000000000%Z)
              "2019-03-12" 1552348800000000000%Z eq_refl
              (or_introl (conj eq_refl Hp)))
    as (cdLt & cdLeq & cdEq & cdGeq & cdGt
        & H1 & _ & _ & H4 & _ & Hlt & _ & _ & _ & _ & Hge & _).
  exists cdLt, cdGeq. split; [exact H1|]. split; [exact H4|].
  assert (Hm : match_ cdLt "2019-03-12" = true)
    by (apply Hlt; reflexivity).
  split; [exact Hm|]. rewrite Hge, Hm. reflexivity.
Defined.

Lemma number_conditions_witness :
  exists cdLt cdLeq cdEq,
    Sample.compileCondition (withOp Sample.balanceAtLeast100 TLt) = inl cdLt
    /\ Sample.compileCondition (withOp Sample.balanceAtLeast100 TLeq)
       = inl cdLeq
    /\ Sample.compileCondition (withOp Sample.balanceAtLeast100 TEq)
       = inl cdEq
    /\ match_ cdLeq "100coins"
       = match_ cdLt "100coins" || match_ cdEq "100coins".
Proof.
  destruct (number_conditions_are_consistent
              Sample.ParseFloat Sample.ParseDate Sample.ParseTime
              Sample.balanceAtLeast100 (Sample.numberArg "100" 100%float)
              eq_refl eq_refl)
    as (cdLt & cdLeq & cdEq & cdGeq & cdGt & H1 & H2 & H3 & _ & _ & H).
  exists cdLt, cdLeq, cdEq. repeat split; try assumption.
  apply (H "100coins").
Defined.

Lemma numeric_head_witness :
  match_ Sample.balanceAtLeast100_compiled "150coins"
  = match_ Sample.balanceAtLeast100_compiled "150"
  /\ match_ Sample.balanceAtLeast100_compiled "-150"
     = match_ Sample.balanceAtLeast100_compiled "".
Proof.
  destruct (numeric_condition_reads_head_only
              Sample.ParseFloat Sample.ParseDate Sample.ParseTime
              Sample.balanceAtLeast100 Sample.balanceAtLeast100_compiled
              (Sample.numberArg "100" 100%float) eq_refl
              ltac:(discriminate) eq_refl eq_refl)
    as (H1 & _ & H3).
  split.
  - exact (H1 "150coins").
  - apply H3. reflexivity.
Defined.

End QueryFacts.

(* ================================================================== *)
(** * Part IV: properties of the PBTS timing *)
(* ================================================================== *)

Module PBTSFacts.
Import PBTS.

Local Open Scope Z_scope.

Lemma clampZero_max d : clampZero d = Z.max 0 d.
Proof. unfold clampZero. destruct (Z.ltb_spec d 0); lia. Qed.

Lemma proposalStepWaitingTime_eq clock previousBlockTime params :
  proposalStepWaitingTime clock previousBlockTime params
  = Z.max 0 (previousBlockTime + Precision params + MsgDelay params
             - Now clock).
Proof.
  unfold proposalStepWaitingTime, Add, Sub. apply clampZero_max.
Qed.

Lemma proposerWaitTime_eq clock previousBlockTime :
  proposerWaitTime clock previousBlockTime
  = Z.max 0 (previousBlockTime - Now clock).
Proof. unfold proposerWaitTime, Sub. apply clampZero_max. Qed.

(** C1.  [proposalStepWaitingTime] is the previous block time plus
    Precision plus MsgDelay minus the local time, or zero when that is
    negative; it is never negative; and it returns what the three rows of the
    table of TestProposalTimeout expect, from any reference instant. *)
Theorem proposalStepWaitingTime_clamped_deadline :
  forall (clock : Source) (previousBlockTime : Time)
         (params : TimestampParams) (reference : Time),
    proposalStepWaitingTime clock previousBlockTime params
    = Z.max 0 (previousBlockTime + Precision params + MsgDelay params
               - Now clock)
    /\ 0 <= proposalStepWaitingTime clock previousBlockTime params
    /\ proposalStepWaitingTime
         (mkSource (Add reference (525 * Millisecond)))
         (Add reference (6 * Millisecond))
         (mkTimestampParams (20 * Millisecond) (500 * Millisecond))
       = 1 * Millisecond
    /\ proposalStepWaitingTime
         (mkSource (Add reference (525 * Millisecond)))
         (Add reference (5 * Millisecond))
         (mkTimestampParams (20 * Millisecond) (500 * Millisecond))
       = 0
    /\ proposalStepWaitingTime
         (mkSource (Add reference (725 * Millisecond)))
         (Add reference (5 * Millisecond))
         (mkTimestampParams (20 * Millisecond) (500 * Millisecond))
       = 0
    /\ TestProposalTimeout = true.
Proof.
  intros clock previousBlockTime params reference.
  split; [apply proposalStepWaitingTime_eq|].
  split; [rewrite proposalStepWaitingTime_eq; lia|].
  repeat split;
    try (rewrite proposalStepWaitingTime_eq; cbn [Now Precision MsgDelay];
         unfold Add, Millisecond, Nanosecond; lia).
Qed.

(** C2.  [proposerWaitTime] is the previous block time minus the local
    time, or zero when that is negative: the difference when the previous
    block time is later than the local time, zero when it is not, equality
    included; and it returns what the rows of the table of
    TestProposerWaitTime expect. *)
Theorem proposerWaitTime_clamped_difference :
  forall (clock : Source) (previousBlockTime : Time),
    proposerWaitTime clock previousBlockTime
    = Z.max 0 (previousBlockTime - Now clock)
    /\ (Now clock < previousBlockTime ->
        proposerWaitTime clock previousBlockTime
        = previousBlockTime - Now clock)
    /\ (previousBlockTime <= Now clock ->
        proposerWaitTime clock previousBlockTime = 0)
    /\ TestProposerWaitTime = true.
Proof.
  intros clock previousBlockTime.
  rewrite proposerWaitTime_eq.
  repeat split; try lia.
Qed.

(** The three rows of TestProposerWaitTime. *)
Lemma proposerWaitTime_witness :
  proposerWaitTime (mkSource (Add testGenesisTime (1 * Nanosecond)))
                   (Add testGenesisTime (5 * Nanosecond))
  = 4 * Nanosecond
  /\ proposerWaitTime (mkSource (Add testGenesisTime (5 * Nanosecond)))
                      (Add testGenesisTime (1 * Nanosecond))
     = 0
  /\ proposerWaitTime (mkSource (Add testGenesisTime (5 * Nanosecond)))
                      (Add testGenesisTime (5 * Nanosecond))
     = 0.
Proof.
  split; [|split].
  - destruct (proposerWaitTime_clamped_difference
                (mkSource (Add testGenesisTime (1 * Nanosecond)))
                (Add testGenesisTime (5 * Nanosecond))) as (_ & H & _).
    rewrite H; reflexivity.
  - destruct (proposerWaitTime_clamped_difference
                (mkSource (Add testGenesisTime (5 * Nanosecond)))
                (Add testGenesisTime (1 * Nanosecond))) as (_ & _ & H & _).
    apply H. discriminate.
  - destruct (proposerWaitTime_clamped_difference
                (mkSource (Add testGenesisTime (5 * Nanosecond)))
                (Add testGenesisTime (5 * Nanosecond))) as (_ & _ & H & _).
    apply H. discriminate.
Defined.

(** ** The propose step *)

Section ProposeStep.

Variable params : TimestampParams.
Variable timeoutPropose : Duration.
Variable previousBlockTime : Time.
Variable enteredAt : Time.

#[local] Abbreviation elapsesAt :=
  (PBTS.elapsesAt params timeoutPropose previousBlockTime enteredAt).

#[local] Abbreviation step :=
  (proposeStep params timeoutPropose previousBlockTime enteredAt).

Lemma elapsesAt_bounds :
  enteredAt + timeoutPropose <= elapsesAt
  /\ enteredAt
     + proposalStepWaitingTime (mkSource enteredAt) previousBlockTime params
     <= elapsesAt
  /\ previousBlockTime + Precision params + MsgDelay params <= elapsesAt.
Proof.
  unfold PBTS.elapsesAt, effectiveProposeTimeout, Add.
  rewrite proposalStepWaitingTime_eq. cbn [Now]. lia.
Qed.

Lemma proposeStep_unfold deliveries :
  step deliveries
  = match find (resolves params previousBlockTime elapsesAt) deliveries with
    | Some d => mkPrevote (availableAt d) (BlockIDOf (blockHash d))
    | None => mkPrevote elapsesAt NilBlockID
    end.
Proof. reflexivity. Qed.

Lemma nil_vote_is_timeout deliveries :
  voteBlockID (step deliveries) = NilBlockID ->
  step deliveries = mkPrevote elapsesAt NilBlockID.
Proof.
  rewrite proposeStep_unfold.
  destruct (find (resolves params previousBlockTime elapsesAt) deliveries);
    [discriminate | reflexivity].
Qed.

Lemma block_vote_is_delivery deliveries h :
  voteBlockID (step deliveries) = BlockIDOf h ->
  exists d, In d deliveries
            /\ blockHash d = h
            /\ decidedAt (step deliveries) = availableAt d
            /\ availableAt d < elapsesAt
            /\ isTimely params previousBlockTime (availableAt d) (blockTime d)
               = true.
Proof.
  rewrite proposeStep_unfold.
  destruct (find (resolves params previousBlockTime elapsesAt) deliveries)
    as [d|] eqn:E; [|discriminate].
  cbn [voteBlockID decidedAt]. intros [= <-].
  apply find_some in E as [Hin Hres].
  unfold resolves in Hres. apply andb_true_iff in Hres as [Hlt Htimely].
  apply Z.ltb_lt in Hlt. now exists d.
Qed.

Lemma find_skip {A} (f : A -> bool) (l1 l2 : list A) (x : A) :
  f x = false -> find f (l1 ++ x :: l2) = find f (l1 ++ l2).
Proof.
  intros Hx. induction l1 as [|y l1 IH]; simpl.
  - now rewrite Hx.
  - now rewrite IH.
Qed.

Lemma isTimely_iff localTime blockTimestamp :
  isTimely params previousBlockTime localTime blockTimestamp = true
  <-> previousBlockTime <= blockTimestamp
      /\ localTime - Precision params <= blockTimestamp
         <= localTime + Precision params.
Proof.
  unfold isTimely. rewrite !andb_true_iff, !Z.leb_le. tauto.
Qed.

(** C5.  When the propose step of a validator that is not the proposer ends
    in a nil prevote, the step ended at the instant of entry plus the larger
    of the configured propose timeout and the PBTS waiting time computed at
    entry.  That instant is not before the entry plus the configured
    timeout, and not before the PBTS deadline, the previous block time plus
    Precision plus MsgDelay, however short the configured timeout is. *)
Theorem nil_prevote_waits_for_larger_timeout (deliveries : list Delivery) :
  voteBlockID (step deliveries) = NilBlockID ->
  effectiveProposeTimeout params timeoutPropose (mkSource enteredAt)
    previousBlockTime
  = Z.max timeoutPropose
          (proposalStepWaitingTime (mkSource enteredAt) previousBlockTime
             params)
  /\ decidedAt (step deliveries)
     = enteredAt
       + Z.max timeoutPropose
               (proposalStepWaitingTime (mkSource enteredAt)
                  previousBlockTime params)
  /\ enteredAt + timeoutPropose <= decidedAt (step deliveries)
  /\ enteredAt
     + proposalStepWaitingTime (mkSource enteredAt) previousBlockTime params
     <= decidedAt (step deliveries)
  /\ previousBlockTime + Precision params + MsgDelay params
     <= decidedAt (step deliveries).
Proof.
  intros Hnil. rewrite (nil_vote_is_timeout _ Hnil). cbn [decidedAt].
  split; [reflexivity|]. split; [reflexivity|]. exact elapsesAt_bounds.
Qed.

End ProposeStep.

(** ** The propose step with an open timeliness check *)



Lemma proposeStep_is_proposeStepWith params timeoutPropose previousBlockTime
    enteredAt deliveries :
  proposeStep params timeoutPropose previousBlockTime enteredAt deliveries
  = proposeStepWith (isTimely params previousBlockTime) params timeoutPropose
      previousBlockTime enteredAt deliveries.
Proof. reflexivity. Qed.

Section TimelinessCheck.

Variable timely : Time -> Time -> bool.
Variable params : TimestampParams.
Variable timeoutPropose : Duration.
Variable previousBlockTime : Time.
Variable enteredAt : Time.

#[local] Abbreviation elapses :=
  (PBTS.elapsesAt params timeoutPropose previousBlockTime enteredAt).

#[local] Abbreviation stepWith :=
  (proposeStepWith timely params timeoutPropose previousBlockTime enteredAt).


End TimelinessCheck.



(** ** The two end-to-end configurations in the model *)

Lemma Millisecond_value : Millisecond = 1000000.
Proof. reflexivity. Qed.

(** TestReceiveProposalWaitsForPreviousBlockTime: whenever the validator
    entered the step, the delivery at 450ms resolves it with a prevote for
    the delivered block. *)
Lemma height2_waits_for_previous_block_time initialTime enteredAt hash :
  height2 (cfgWaitsForPreviousBlockTime initialTime) enteredAt hash
  = mkPrevote (Add initialTime (450 * Millisecond)) (BlockIDOf hash).
Proof.
  unfold height2, height2Delivery, cfgWaitsForPreviousBlockTime.
  cbn [timestampParams timeoutPropose genesisTime height2ProposalDeliverTime
       height2ProposedBlockTime].
  rewrite proposeStep_unfold. cbn [find].
  assert (resolves
            (mkTimestampParams (100 * Millisecond) (500 * Millisecond))
            initialTime
            (elapsesAt
               (mkTimestampParams (100 * Millisecond) (500 * Millisecond))
               (50 * Millisecond) initialTime enteredAt)
            (mkDelivery (Add initialTime (450 * Millisecond))
                        (Add initialTime (350 * Millisecond)) hash)
          = true) as ->; [|reflexivity].
  pose proof (elapsesAt_bounds
                (mkTimestampParams (100 * Millisecond) (500 * Millisecond))
                (50 * Millisecond) initialTime enteredAt) as (_ & _ & Hb).
  cbn [Precision MsgDelay] in Hb.
  unfold resolves, isTimely. cbn [availableAt blockTime Precision].
  unfold Add in *. rewrite Millisecond_value in *.
  rewrite !andb_true_iff, Z.ltb_lt, !Z.leb_le. lia.
Qed.

(** TestReceiveProposalTimesOutOnSlowDelivery: whenever the validator
    entered the step, it ends in a nil prevote, not before the bound the
    test compares with. *)
Lemma height2_times_out_on_slow_delivery initialTime enteredAt hash :
  voteBlockID (height2 (cfgTimesOutOnSlowDelivery initialTime) enteredAt hash)
  = NilBlockID
  /\ maxWaitingTime (cfgTimesOutOnSlowDelivery initialTime)
     <= decidedAt
          (height2 (cfgTimesOutOnSlowDelivery initialTime) enteredAt hash).
Proof.
  unfold height2, height2Delivery, maxWaitingTime, cfgTimesOutOnSlowDelivery.
  cbn [timestampParams timeoutPropose genesisTime height2ProposalDeliverTime
       height2ProposedBlockTime Precision MsgDelay].
  rewrite proposeStep_unfold. cbn [find].
  assert (resolves
            (mkTimestampParams (100 * Millisecond) (500 * Millisecond))
            initialTime
            (elapsesAt
               (mkTimestampParams (100 * Millisecond) (500 * Millisecond))
               (50 * Millisecond) initialTime enteredAt)
            (mkDelivery (Add initialTime (610 * Millisecond))
                        (Add initialTime (350 * Millisecond)) hash)
          = false) as ->.
  { unfold resolves, isTimely. cbn [availableAt blockTime Precision].
    unfold Add. rewrite Millisecond_value.
    apply andb_false_iff. right. apply andb_false_iff. left.
    apply andb_false_iff. right. apply Z.leb_gt. lia. }
  cbn [voteBlockID decidedAt]. split; [reflexivity|].
  pose proof (elapsesAt_bounds
                (mkTimestampParams (100 * Millisecond) (500 * Millisecond))
                (50 * Millisecond) initialTime enteredAt) as (_ & _ & Hb).
  cbn [Precision MsgDelay] in Hb. unfold Add. lia.
Qed.

(** The slow delivery of TestReceiveProposalTimesOutOnSlowDelivery, with
    the reference instant of the table tests as initial time and as the
    instant of entry. *)
Lemma nil_prevote_witness :
  voteBlockID
    (height2 (cfgTimesOutOnSlowDelivery testGenesisTime) testGenesisTime
       "block")
  = NilBlockID
  /\ decidedAt
       (height2 (cfgTimesOutOnSlowDelivery testGenesisTime) testGenesisTime
          "block")
     = Add testGenesisTime (600 * Millisecond).
Proof.
  assert (Hnil : voteBlockID
                   (height2 (cfgTimesOutOnSlowDelivery testGenesisTime)
                      testGenesisTime "block") = NilBlockID)
    by reflexivity.
  split; [exact Hnil|].
  destruct (nil_prevote_waits_for_larger_timeout
              (timestampParams (cfgTimesOutOnSlowDelivery testGenesisTime))
              (timeoutPropose (cfgTimesOutOnSlowDelivery testGenesisTime))
              (genesisTime (cfgTimesOutOnSlowDelivery testGenesisTime))
              testGenesisTime
              [height2Delivery (cfgTimesOutOnSlowDelivery testGenesisTime)
                 "block"]
              Hnil) as (_ & H & _).
  unfold height2. rewrite H. reflexivity.
Defined.



End PBTSFacts.
